(** * ORF to JPG converter: the conversion thread and its launcher

    A shallow embedding of [src/orf.py]: the worker [ConversionThread]
    (its [run] loop, the signals it emits, the files it writes and removes)
    and the part of [ORFConverterApp] that builds the worker
    ([start_conversion] and the widgets it reads).

    The libraries the program calls are the environment of the model:
    the file system is a finite map from files to their contents, a file
    being what a path resolves to ([realpath]), so that two spellings of
    one path, or two paths that links make equal, are one entry, and
    [os.remove] removes the entry (a file that would stay under a second
    name, a hard link or the target of the link that is unlinked, is not
    modelled); rawpy's decoder and imageio's encoder are functions that
    may fail; the calls of [stop] made by the interface thread are a
    schedule read at each test of [is_running].  The thread is handed the window's own list object:
    [run] and [for_loop] are the loop over a list the interface leaves
    alone, [live_run] and [live_loop] the loop over the list as the
    interface edits it during the run. *)

From Stdlib Require Import ZArith QArith Qround Qpower Lia Lqa SpecFloat Ascii String.
From stdpp Require Import gmap strings list.

(** ** Exceptions *)

(** What the calls made by [run] can raise.  [str(e)] in the log lines is
    the exception itself here. *)
Inductive exn : Type :=
  | DecodeError          (* rawpy.imread / postprocess *)
  | EncodeError          (* imageio.imsave: encoder *)
  | WriteError           (* imageio.imsave: opening or writing the file *)
  | DeleteError          (* os.remove *)
  | MakedirsError        (* os.makedirs *)
  | ZeroDivisionError.   (* int / int with a zero divisor *)

(** ** Python floats

    [int((i + 1) / total_files * 100)] divides two ints into a float,
    multiplies by [100.0] and truncates.  Both float operations return the
    binary64 number nearest to the exact result, ties to even.  A float is
    the rational it denotes; the exponent range is left out, which changes
    nothing for quotients of list lengths (they never leave the normal
    range). *)
Module PyFloat.
Local Open Scope Q_scope.

Definition pow2 (e : Z) : Q := Qpower 2 e.

(** Exponent of the last mantissa bit of a positive [q]:
    [2^(e+52) <= q < 2^(e+53)]. *)
Definition ulp_exp (q : Q) : Z :=
  let l := (Z.log2 (Qnum q) - Z.log2 (Zpos (Qden q)))%Z in
  if Qle_bool (pow2 l) q then (l - 52)%Z else (l - 53)%Z.

(** Nearest integer, ties to even. *)
Definition rne (t : Q) : Z :=
  let f := Qfloor t in
  match Qcompare (t - inject_Z f) (1 # 2) with
  | Lt => f
  | Gt => (f + 1)%Z
  | Eq => if Z.even f then f else (f + 1)%Z
  end.

Definition round_pos (q : Q) : Q :=
  let e := ulp_exp q in inject_Z (rne (q / pow2 e)) * pow2 e.

(** Nearest number with a 53-bit mantissa. *)
Definition round (q : Q) : Q :=
  match Qcompare q 0 with
  | Eq => 0
  | Gt => round_pos q
  | Lt => - round_pos (- q)
  end.

(** [a / b] on ints. *)
Definition true_divide (a b : Z) : exn + Q :=
  if (b =? 0)%Z then inl ZeroDivisionError
  else inr (round (inject_Z a / inject_Z b)).

(** [x * y] on floats. *)
Definition float_mul (x y : Q) : Q := round (x * y).

(** [int(x)]: truncation towards zero. *)
Definition int_of_float (x : Q) : Z :=
  if Qle_bool 0 x then Qfloor x else Qceiling x.

(** The same product computed with the Standard Library's IEEE 754
    operations at precision 53, used to cross-check [round]. *)
Definition Z2SF (z : Z) : spec_float := binary_normalize 53 1024 z 0 false.

Definition SF2Q (f : spec_float) : Q :=
  match f with
  | S754_finite s m e => (if s then -1 else 1) * inject_Z (Zpos m) * pow2 e
  | _ => 0
  end.

Definition ieee_scaled (a total : nat) : Q :=
  SF2Q (SFmul 53 1024
          (SFdiv 53 1024 (Z2SF (Z.of_nat a)) (Z2SF (Z.of_nat total)))
          (Z2SF 100)).

(** The float [a / total] and the float [a / total * 100]. *)
Definition ratio (a total : nat) : Q :=
  round (inject_Z (Z.of_nat a) / inject_Z (Z.of_nat total)).

Definition scaled (a total : nat) : Q :=
  float_mul (ratio a total) (inject_Z 100).

Definition agree_upto (n : nat) : bool :=
  forallb (fun total =>
             forallb (fun a => Qeq_bool (ieee_scaled a total) (scaled a total))
                     (seq 1 total))
          (seq 1 n).
End PyFloat.

(** [int(done / total * 100)] *)
Definition percent (done total : nat) : exn + Z :=
  match PyFloat.true_divide (Z.of_nat done) (Z.of_nat total) with
  | inl e => inl e
  | inr x => inr (PyFloat.int_of_float (PyFloat.float_mul x (inject_Z 100)))
  end.

(** The value [percent] returns when the divisor is not zero. *)
Definition percent_val (a total : nat) : Z :=
  PyFloat.int_of_float (PyFloat.scaled a total).

(** ** Paths

    [os.path.basename], [os.path.dirname], [os.path.join] and
    [pathlib.Path(p).stem] as [posixpath] and [PurePosixPath] define them. *)
Module Path.
Definition sep : ascii := "/"%char.
Definition dot : ascii := "."%char.

Definition eqc (a b : ascii) : bool := bool_decide (a = b).

(** [s.rfind(c)]: index of the last [c], or -1. *)
Fixpoint rfind (c : ascii) (s : string) : Z :=
  match s with
  | EmptyString => (-1)%Z
  | String a s' =>
      let r := rfind c s' in
      if (0 <=? r)%Z then (r + 1)%Z
      else if eqc a c then 0%Z else (-1)%Z
  end.

(** [s[:n]] and [s[n:]] *)
Fixpoint take (n : nat) (s : string) : string :=
  match n, s with
  | S n', String a s' => String a (take n' s')
  | _, _ => EmptyString
  end.

Fixpoint drop (n : nat) (s : string) : string :=
  match n, s with
  | S n', String _ s' => drop n' s'
  | _, _ => s
  end.

(** [s.rstrip(c)] *)
Fixpoint rstrip (c : ascii) (s : string) : string :=
  match s with
  | EmptyString => EmptyString
  | String a s' =>
      match rstrip c s' with
      | EmptyString => if eqc a c then EmptyString else String a EmptyString
      | r => String a r
      end
  end.

(** [s == c * len(s)] *)
Fixpoint all_char (c : ascii) (s : string) : bool :=
  match s with
  | EmptyString => true
  | String a s' => eqc a c && all_char c s'
  end.

Definition startswith (c : ascii) (s : string) : bool :=
  match s with
  | String a _ => eqc a c
  | EmptyString => false
  end.

Fixpoint endswith (c : ascii) (s : string) : bool :=
  match s with
  | EmptyString => false
  | String a EmptyString => eqc a c
  | String _ s' => endswith c s'
  end.

Definition is_empty (s : string) : bool :=
  match s with EmptyString => true | _ => false end.

(** [c in s] *)
Fixpoint has (c : ascii) (s : string) : bool :=
  match s with
  | EmptyString => false
  | String a s' => eqc a c || has c s'
  end.

Definition basename (p : string) : string :=
  drop (Z.to_nat (rfind sep p + 1)) p.

Definition dirname (p : string) : string :=
  let head := take (Z.to_nat (rfind sep p + 1)) p in
  if negb (is_empty head) && negb (all_char sep head)
  then rstrip sep head else head.

Definition join (a b : string) : string :=
  if startswith sep b then b
  else if is_empty a || endswith sep a then a +:+ b
  else a +:+ String sep b.

(** [s.split(c)] *)
Fixpoint split (c : ascii) (s : string) : list string :=
  match s with
  | EmptyString => [EmptyString]
  | String a s' =>
      if eqc a c then EmptyString :: split c s'
      else match split c s' with
           | x :: xs => String a x :: xs
           | [] => [String a EmptyString]
           end
  end.

(** A component pathlib keeps: neither empty nor ["."]. *)
Definition kept (x : string) : bool :=
  negb (is_empty x) && negb (bool_decide (x = "."%string)).

(** [Path(p).name]: the last component, [""] when there is none. *)
Definition name (p : string) : string :=
  List.last (List.filter kept (split sep p)) EmptyString.

(** [Path(p).stem]: the name up to its last dot, when that dot is
    neither the first nor the last character. *)
Definition stem (p : string) : string :=
  let nm := name p in
  let i := rfind dot nm in
  if (0 <? i)%Z && (i <? Z.of_nat (String.length nm) - 1)%Z
  then take (Z.to_nat i) nm else nm.
End Path.

(** ** Signals

    The thread reports through three Qt signals.  A log line is kept as
    the template that built it together with the values put in. *)
Inductive message : Type :=
  | msg_converting (basename : string)             (* "Конвертация: {}" *)
  | msg_removed (basename : string)                (* "Удален оригинал: {}" *)
  | msg_success (output_filename : string)         (* "✅ Успешно: {}" *)
  | msg_error (basename : string) (e : exn)        (* "❌ Ошибка {}: {}" *)
  | msg_done (successful total_files : nat)        (* "Конвертация завершена! Успешно: {}/{}" *)
  | msg_critical (e : exn).                        (* "Критическая ошибка: {}" *)

Inductive signal : Type :=
  | progress (value : Z)
  | log_message (m : message)
  | finished_signal (success : bool).

(** The readings of the signals as the events of a batch: an item starts
    with its "converting" line and ends with its "success" or "error"
    line; no signal reports a skipped item. *)
Definition is_started (s : signal) : bool :=
  match s with log_message (msg_converting _) => true | _ => false end.

Definition is_succeeded (s : signal) : bool :=
  match s with log_message (msg_success _) => true | _ => false end.

Definition is_failed (s : signal) : bool :=
  match s with log_message (msg_error _ _) => true | _ => false end.

Definition is_skipped (s : signal) : bool := false.

Definition is_terminal (s : signal) : bool :=
  is_succeeded s || is_failed s || is_skipped s.

Definition is_finished (s : signal) : bool :=
  match s with finished_signal _ => true | _ => false end.

Definition is_progress (s : signal) : bool :=
  match s with progress _ => true | _ => false end.

Definition progress_values (tr : list signal) : list Z :=
  omap (fun s => match s with progress v => Some v | _ => None end) tr.

Definition count (f : signal -> bool) (tr : list signal) : nat :=
  length (List.filter f tr).

(** ** The environment *)

(** What the interface can do to the file list while the thread runs:
    [add_files] and [add_folder] extend the list object, [clear_list]
    empties it. *)
Inductive edit : Type :=
  | Extend (files : list string)
  | Clear.

(** [self.file_list.extend(files)] and [self.file_list.clear()] *)
Definition apply_edit (l : list string) (e : edit) : list string :=
  match e with
  | Extend files => l ++ files
  | Clear => []
  end.

(** [content] is what a file holds, [raster] a decoded RGB image. *)
Record World (content raster : Type) : Type := {
  postprocess : content -> option raster;      (* rawpy: None when it raises *)
  jpeg_encode : raster -> Z -> option content;      (* imageio's encoder at a quality *)
  can_write : string -> bool;                  (* the file can be opened for writing *)
  can_remove : string -> bool;                 (* os.remove is permitted *)
  can_makedirs : string -> bool;               (* os.makedirs succeeds *)
  stop_before : nat -> bool;                   (* stop() was called since the previous
                                                  test of is_running, the i-th test
                                                  being the one of item i *)
  realpath : string -> string;                 (* the file a path names: '.' and '..'
                                                  components, links and letter case
                                                  resolved *)
  leftover : raster -> Z -> content;           (* what the opened output holds when
                                                  the encoder raises *)
  list_edits : list (list edit)                (* the edits of the list made since the
                                                  previous step of the loop, the i-th
                                                  group being seen when item i is
                                                  fetched *)
}.

Arguments postprocess {content raster} _ _.
Arguments jpeg_encode {content raster} _ _ _.
Arguments can_write {content raster} _ _.
Arguments can_remove {content raster} _ _.
Arguments can_makedirs {content raster} _ _.
Arguments stop_before {content raster} _ _.
Arguments realpath {content raster} _ _.
Arguments leftover {content raster} _ _ _.
Arguments list_edits {content raster} _.

(** The same world with an interface that never calls [stop]. *)
Definition never_stopped {content raster} (W : World content raster)
    : World content raster :=
  {| postprocess := postprocess W; jpeg_encode := jpeg_encode W;
     can_write := can_write W; can_remove := can_remove W;
     can_makedirs := can_makedirs W; stop_before := fun _ => false;
     realpath := realpath W; leftover := leftover W;
     list_edits := list_edits W |}.

(** ** The conversion thread *)

Record ConversionThread : Type := {
  file_list : list string;
  output_dir : string;
  quality : Z;
  delete_original : bool
}.

(** [__init__] stores its arguments; [is_running] starts true (see
    [initial]). *)
Definition ConversionThread_init
    (file_list : list string) (output_dir : string) (quality : Z)
    (delete_original : bool) : ConversionThread :=
  {| file_list := file_list; output_dir := output_dir;
     quality := quality; delete_original := delete_original |}.

Section Run.
Context {content raster : Type} (W : World content raster).

(** What a run reads and changes: the files, the flag [is_running], the
    local counter [successful], and the signals emitted so far (oldest
    first). *)
Record state : Type := {
  fs : gmap string content;
  is_running : bool;
  successful : nat;
  signals : list signal
}.

Definition initial (files : gmap string content) : state :=
  {| fs := files; is_running := true; successful := 0; signals := [] |}.

Definition set_fs (f : gmap string content) (st : state) : state :=
  {| fs := f; is_running := is_running st;
     successful := successful st; signals := signals st |}.

Definition set_is_running (b : bool) (st : state) : state :=
  {| fs := fs st; is_running := b;
     successful := successful st; signals := signals st |}.

Definition set_successful (n : nat) (st : state) : state :=
  {| fs := fs st; is_running := is_running st;
     successful := n; signals := signals st |}.

Definition add_signal (s : signal) (st : state) : state :=
  {| fs := fs st; is_running := is_running st;
     successful := successful st; signals := signals st ++ [s] |}.

(** Computations that may raise; what was done before the exception
    stays done. *)
Definition M (A : Type) : Type := state -> (exn + A) * state.

#[local] Instance M_ret : MRet M := fun A a st => (inr a, st).

#[local] Instance M_bind : MBind M := fun A B k m st =>
  match m st with
  | (inr a, st') => k a st'
  | (inl e, st') => (inl e, st')
  end.

(** [try: m  except Exception as e: h e] *)
Definition try_except {A} (m : M A) (h : exn -> M A) : M A :=
  fun st =>
    match m st with
    | (inr a, st') => (inr a, st')
    | (inl e, st') => h e st'
    end.

Definition lift {A} (r : exn + A) : M A := fun st => (r, st).

Definition get_state : M state := fun st => (inr st, st).

Definition modify (f : state -> state) : M unit := fun st => (inr tt, f st).

Definition emit (s : signal) : M unit := modify (add_signal s).

(** [with rawpy.imread(file_path) as raw: rgb = raw.postprocess()] *)
Definition rawpy_decode (file_path : string) : M raster :=
  fun st =>
    match fs st !! realpath W file_path with
    | None => (inl DecodeError, st)
    | Some raw =>
        match postprocess W raw with
        | Some rgb => (inr rgb, st)
        | None => (inl DecodeError, st)
        end
    end.

(** [imageio.imsave(output_path, rgb, quality=quality)]: the output is
    opened for writing (created, or emptied when it exists) before the
    encoder runs; when the encoder raises, the opened file stays. *)
Definition imageio_imsave (output_path : string) (rgb : raster)
    (quality : Z) : M unit :=
  fun st =>
    if can_write W output_path
    then match jpeg_encode W rgb quality with
         | Some bytes =>
             (inr tt, set_fs (<[realpath W output_path := bytes]> (fs st)) st)
         | None =>
             (inl EncodeError,
              set_fs (<[realpath W output_path := leftover W rgb quality]> (fs st)) st)
         end
    else (inl WriteError, st).

(** [os.remove(path)]: the file is gone with its name. *)
Definition os_remove (path : string) : M unit :=
  fun st =>
    match fs st !! realpath W path with
    | None => (inl DeleteError, st)
    | Some _ =>
        if can_remove W path
        then (inr tt, set_fs (delete (realpath W path) (fs st)) st)
        else (inl DeleteError, st)
    end.

(** The interface thread may have called [stop] by the time the loop
    tests the flag for item [i]. *)
Definition stop : M unit := modify (set_is_running false).

Definition interface (i : nat) : M unit :=
  if stop_before W i then stop else mret tt.

Variable self : ConversionThread.

Definition output_filename (file_path : string) : string :=
  Path.stem file_path +:+ ".jpg".

Definition output_path (file_path : string) : string :=
  Path.join (output_dir self) (output_filename file_path).

(** The statements under the inner [try]. *)
Definition convert (file_path : string) : M unit :=
  emit (log_message (msg_converting (Path.basename file_path)));;
  rgb ← rawpy_decode file_path;
  imageio_imsave (output_path file_path) rgb (quality self);;
  modify (fun st => set_successful (successful st + 1) st);;
  (if delete_original self
   then os_remove file_path;;
        emit (log_message (msg_removed (Path.basename file_path)))
   else mret tt);;
  emit (log_message (msg_success (output_filename file_path))).

(** The inner [try ... except Exception]. *)
Definition item (file_path : string) : M unit :=
  try_except (convert file_path)
    (fun e => emit (log_message (msg_error (Path.basename file_path) e))).

(** One pass through the loop body once the flag was found set. *)
Definition iteration (total_files i : nat) (file_path : string) : M unit :=
  item file_path;;
  p ← lift (percent (i + 1) total_files);
  emit (progress p).

(** [for i, file_path in enumerate(self.file_list)], from index [i], over
    a list that the interface leaves alone while the loop runs. *)
Fixpoint for_loop (total_files i : nat) (files : list string) : M unit :=
  match files with
  | [] => mret tt
  | file_path :: rest =>
      interface i;;
      st ← get_state;
      if negb (is_running st) then mret tt     (* break *)
      else iteration total_files i file_path;;
           for_loop total_files (S i) rest
  end.

Definition run : M unit :=
  try_except
    (let total_files := length (file_list self) in
     modify (set_successful 0);;
     for_loop total_files 0 (file_list self);;
     emit (finished_signal true);;
     st ← get_state;
     emit (log_message (msg_done (successful st) total_files)))
    (fun e =>
       emit (log_message (msg_critical e));;
       emit (finished_signal false)).

(** The signals of a run started on the files [files]. *)
Definition trace (files : gmap string content) : list signal :=
  signals (snd (run (initial files))).

(** The same loop over the list object itself, which [start_conversion]
    shares with the window: [l] is the list as the previous step left it,
    and the next group of [edits] is applied before the iterator looks for
    the item at index [i].  The iterator stops for good when the list has
    no such item.  Once the edits are used up the list no longer changes,
    and the loop is [for_loop] on what is left of it. *)
Fixpoint live_loop (total_files i : nat) (l : list string)
    (edits : list (list edit)) : M unit :=
  match edits with
  | [] => for_loop total_files i (drop i l)
  | es :: edits' =>
      let l' := foldl apply_edit l es in
      match l' !! i with
      | None => mret tt
      | Some file_path =>
          interface i;;
          st ← get_state;
          if negb (is_running st) then mret tt     (* break *)
          else iteration total_files i file_path;;
               live_loop total_files (S i) l' edits'
      end
  end.

(** [run] with the interface editing the list as [list_edits] tells;
    [file_list self] is the list when [run] takes its length. *)
Definition live_run : M unit :=
  try_except
    (let total_files := length (file_list self) in
     modify (set_successful 0);;
     live_loop total_files 0 (file_list self) (list_edits W);;
     emit (finished_signal true);;
     st ← get_state;
     emit (log_message (msg_done (successful st) total_files)))
    (fun e =>
       emit (log_message (msg_critical e));;
       emit (finished_signal false)).

Definition live_trace (files : gmap string content) : list signal :=
  signals (snd (live_run (initial files))).

(** The interface leaves the list alone during the run. *)
Definition list_untouched : Prop := Forall (fun es => es = []) (list_edits W).
End Run.

Arguments state : clear implicits.
Arguments M : clear implicits.
Arguments fs {content} _.
Arguments is_running {content} _.
Arguments successful {content} _.
Arguments signals {content} _.

(** ** Notions used to state the properties *)

Section Notions.
Context {content raster : Type} (W : World content raster).
Variable self : ConversionThread.

(** Decoding, opening the output and encoding, for the source
    [file_path] among [files]: the bytes [imsave] writes, or what is
    raised by the first of the three that fails. *)
Definition attempt (file_path : string) (files : gmap string content)
    : exn + content :=
  match files !! realpath W file_path with
  | None => inl DecodeError
  | Some raw =>
      match postprocess W raw with
      | None => inl DecodeError
      | Some rgb =>
          if can_write W (output_path self file_path)
          then match jpeg_encode W rgb (quality self) with
               | Some bytes => inr bytes
               | None => inl EncodeError
               end
          else inl WriteError
      end
  end.

(** The files after an item whose [attempt] failed: as they were, except
    that the output was opened when it is the encoder that raised. *)
Definition files_after_failure (file_path : string)
    (files : gmap string content) : gmap string content :=
  match files !! realpath W file_path with
  | None => files
  | Some raw =>
      match postprocess W raw with
      | None => files
      | Some rgb =>
          if can_write W (output_path self file_path)
          then match jpeg_encode W rgb (quality self) with
               | Some _ => files
               | None =>
                   <[realpath W (output_path self file_path)
                       := leftover W rgb (quality self)]> files
               end
          else files
      end
  end.

(** The state one item leaves behind, in closed form (see [item_eq]). *)
Definition item_result (file_path : string) (st : state content)
    : state content :=
  let base := Path.basename file_path in
  let st1 := add_signal (log_message (msg_converting base)) st in
  match attempt file_path (fs st) with
  | inl e =>
      add_signal (log_message (msg_error base e))
        (set_fs (files_after_failure file_path (fs st)) st1)
  | inr bytes =>
      let st2 :=
        set_successful (successful st + 1)
          (set_fs (<[realpath W (output_path self file_path) := bytes]> (fs st))
                  st1) in
      let ok := log_message (msg_success (output_filename file_path)) in
      if delete_original self then
        match fs st2 !! realpath W file_path with
        | Some _ =>
            if can_remove W file_path
            then add_signal ok
                   (add_signal (log_message (msg_removed base))
                      (set_fs (delete (realpath W file_path) (fs st2)) st2))
            else add_signal (log_message (msg_error base DeleteError)) st2
        | None => add_signal (log_message (msg_error base DeleteError)) st2
        end
      else add_signal ok st2
  end.

(** The state after the item at index [i], progress signal included. *)
Definition iteration_result (total_files i : nat) (file_path : string)
    (st : state content) : state content :=
  add_signal (progress (percent_val (i + 1) total_files))
    (item_result file_path st).

(** The number of items the loop goes through from index [i] with [n]
    items left: those before the first test that finds [stop] called. *)
Fixpoint iterations (i n : nat) : nat :=
  match n with
  | 0 => 0
  | S n' => if stop_before W i then 0 else S (iterations (S i) n')
  end.

(** The signals of one item: its "converting" line, then one of its
    "success" line (after the "removed" line when the source was removed)
    and its "error" line. *)
Inductive item_block (file_path : string) : list signal -> Prop :=
  | block_success :
      item_block file_path
        [log_message (msg_converting (Path.basename file_path));
         log_message (msg_success (output_filename file_path))]
  | block_removed :
      item_block file_path
        [log_message (msg_converting (Path.basename file_path));
         log_message (msg_removed (Path.basename file_path));
         log_message (msg_success (output_filename file_path))]
  | block_error e :
      item_block file_path
        [log_message (msg_converting (Path.basename file_path));
         log_message (msg_error (Path.basename file_path) e)].

(** The signals of the items [files], the first at index [i]: for each
    its block and then its progress value. *)
Fixpoint blocks (total_files i : nat) (files : list string)
    (bs : list (list signal)) : Prop :=
  match files, bs with
  | [], [] => True
  | file_path :: files', b :: bs' =>
      (exists blk, item_block file_path blk /\
                   b = blk ++ [progress (percent_val (i + 1) total_files)]) /\
      blocks total_files (S i) files' bs'
  | _, _ => False
  end.
End Notions.

(** Non-decreasing list of integers. *)
Definition nondecreasing (l : list Z) : Prop :=
  forall i j v w, i <= j -> l !! i = Some v -> l !! j = Some w -> (v <= w)%Z.

(** ** The main window *)

(** A [QSpinBox] keeps its value inside its range: [setRange] and
    [setValue] clamp, and so does every edit made by the user. *)
Record QSpinBox : Type := {
  minimum : Z;
  maximum : Z;
  value : Z
}.

Definition QSpinBox_new : QSpinBox :=
  {| minimum := 0; maximum := 99; value := 0 |}.

Definition bound (lo hi v : Z) : Z := Z.max lo (Z.min hi v).

Definition setRange (lo hi : Z) (sb : QSpinBox) : QSpinBox :=
  {| minimum := lo; maximum := Z.max lo hi;
     value := bound lo (Z.max lo hi) (value sb) |}.

Definition setValue (v : Z) (sb : QSpinBox) : QSpinBox :=
  {| minimum := minimum sb; maximum := maximum sb;
     value := bound (minimum sb) (maximum sb) v |}.

(** The fields of [ORFConverterApp] that [start_conversion] reads. *)
Record ORFConverterApp : Type := {
  app_file_list : list string;
  output_folder : option string;
  quality_spinbox : QSpinBox;
  delete_original_checkbox : bool
}.

(** The window as [__init__] and [init_ui] leave it. *)
Definition init_ui : ORFConverterApp :=
  {| app_file_list := [];
     output_folder := None;
     quality_spinbox := setValue 95 (setRange 1 100 QSpinBox_new);
     delete_original_checkbox := false |}.

(** The slots and the edits of the two input widgets.  The file dialogs
    hand over what the user picked. *)
Definition add_files (files : list string) (app : ORFConverterApp) : ORFConverterApp :=
  match files with
  | [] => app
  | _ => {| app_file_list := app_file_list app ++ files;
            output_folder := output_folder app;
            quality_spinbox := quality_spinbox app;
            delete_original_checkbox := delete_original_checkbox app |}
  end.

Definition add_folder (folder : string) (orf_files : list string)
    (app : ORFConverterApp) : ORFConverterApp :=
  if Path.is_empty folder then app else add_files orf_files app.

Definition choose_output_folder (folder : string) (app : ORFConverterApp) : ORFConverterApp :=
  if Path.is_empty folder then app
  else {| app_file_list := app_file_list app;
          output_folder := Some folder;
          quality_spinbox := quality_spinbox app;
          delete_original_checkbox := delete_original_checkbox app |}.

Definition clear_list (app : ORFConverterApp) : ORFConverterApp :=
  {| app_file_list := [];
     output_folder := output_folder app;
     quality_spinbox := quality_spinbox app;
     delete_original_checkbox := delete_original_checkbox app |}.

Definition edit_quality (v : Z) (app : ORFConverterApp) : ORFConverterApp :=
  {| app_file_list := app_file_list app;
     output_folder := output_folder app;
     quality_spinbox := setValue v (quality_spinbox app);
     delete_original_checkbox := delete_original_checkbox app |}.

Definition set_delete_original (b : bool) (app : ORFConverterApp) : ORFConverterApp :=
  {| app_file_list := app_file_list app;
     output_folder := output_folder app;
     quality_spinbox := quality_spinbox app;
     delete_original_checkbox := b |}.

(** The windows the user can bring about. *)
Inductive reachable : ORFConverterApp -> Prop :=
  | reach_init : reachable init_ui
  | reach_add_files files app :
      reachable app -> reachable (add_files files app)
  | reach_add_folder folder orf_files app :
      reachable app -> reachable (add_folder folder orf_files app)
  | reach_choose_output_folder folder app :
      reachable app -> reachable (choose_output_folder folder app)
  | reach_clear_list app :
      reachable app -> reachable (clear_list app)
  | reach_edit_quality v app :
      reachable app -> reachable (edit_quality v app)
  | reach_set_delete_original b app :
      reachable app -> reachable (set_delete_original b app).

(** Python's truth value of [self.output_folder]. *)
Definition chosen (folder : option string) : option string :=
  match folder with
  | Some d => if Path.is_empty d then None else Some d
  | None => None
  end.

(** [start_conversion]: [inr None] when it returns after the warning box,
    [inl e] when [os.makedirs] raises, [inr (Some thread)] with the thread
    it builds otherwise. *)
Definition start_conversion {content raster} (W : World content raster)
    (app : ORFConverterApp)
    : exn + option ConversionThread :=
  match app_file_list app with
  | [] => inr None
  | first :: _ =>
      let build output_dir :=
        ConversionThread_init (app_file_list app) output_dir
          (value (quality_spinbox app)) (delete_original_checkbox app) in
      match chosen (output_folder app) with
      | Some output_dir =>
          if can_makedirs W output_dir then inr (Some (build output_dir))
          else inl MakedirsError
      | None => inr (Some (build (Path.dirname first)))
      end
  end.

(** ** A small world for examples

    Files hold strings; the decoder rejects the content ["corrupt"]; the
    encoder prefixes ["jpg:"]; writing and removing succeed except on the
    paths listed; [stop] is called before the tests listed; every path
    names a file of its own, and the list is left alone. *)
Definition toy_world (unwritable unremovable : list string) (stops : list nat)
    : World string string :=
  {| postprocess := fun c => if bool_decide (c = "corrupt"%string) then None else Some c;
     jpeg_encode := fun rgb _ => Some ("jpg:" +:+ rgb);
     can_write := fun p => negb (bool_decide (p ∈ unwritable));
     can_remove := fun p => negb (bool_decide (p ∈ unremovable));
     can_makedirs := fun _ => true;
     stop_before := fun i => bool_decide (i ∈ stops);
     realpath := fun p => p;
     leftover := fun _ _ => EmptyString;
     list_edits := [] |}.

(** The world of [toy_world [] [] []] where [/out/./x.jpg] is another
    spelling of [/out/x.jpg]. *)
Definition dotted_world : World string string :=
  {| postprocess := postprocess (toy_world [] [] []);
     jpeg_encode := jpeg_encode (toy_world [] [] []);
     can_write := fun _ => true;
     can_remove := fun _ => true;
     can_makedirs := fun _ => true;
     stop_before := fun _ => false;
     realpath := fun p => if bool_decide (p = "/out/./x.jpg"%string)
                          then "/out/x.jpg"%string else p;
     leftover := fun _ _ => EmptyString;
     list_edits := [] |}.

(** The world of [toy_world [] [] []] where the user adds [/b/y.orf] to
    the list while the first item is converted. *)
Definition growing_world : World string string :=
  {| postprocess := postprocess (toy_world [] [] []);
     jpeg_encode := jpeg_encode (toy_world [] [] []);
     can_write := fun _ => true;
     can_remove := fun _ => true;
     can_makedirs := fun _ => true;
     stop_before := fun _ => false;
     realpath := fun p => p;
     leftover := fun _ _ => EmptyString;
     list_edits := [[]; [Extend ["/b/y.orf"%string]]] |}.

(** The world of [toy_world [] [] []] where the user adds [/a/x.orf] to
    the list before the loop looks for its first item. *)
Definition late_world : World string string :=
  {| postprocess := postprocess (toy_world [] [] []);
     jpeg_encode := jpeg_encode (toy_world [] [] []);
     can_write := fun _ => true;
     can_remove := fun _ => true;
     can_makedirs := fun _ => true;
     stop_before := fun _ => false;
     realpath := fun p => p;
     leftover := fun _ _ => EmptyString;
     list_edits := [[Extend ["/a/x.orf"%string]]] |}.

(** The world of [toy_world [] [] []] where the user clears the list
    while the first item is converted. *)
Definition cleared_world : World string string :=
  {| postprocess := postprocess (toy_world [] [] []);
     jpeg_encode := jpeg_encode (toy_world [] [] []);
     can_write := fun _ => true;
     can_remove := fun _ => true;
     can_makedirs := fun _ => true;
     stop_before := fun _ => false;
     realpath := fun p => p;
     leftover := fun _ _ => EmptyString;
     list_edits := [[]; [Clear]] |}.

(** A world where [stop] is called while the first item is converted. *)
Definition stopped_after_first : World string string := toy_world [] [] [1].

(** Two sources in two folders, and what they hold. *)
Definition two_files : list string := ["/a/x.orf"; "/b/y.orf"]%string.

Definition two_sources : gmap string string :=
  <["/a/x.orf"%string := "X"%string]> (<["/b/y.orf"%string := "Y"%string]> ∅).

(** The same two sources, the first one undecodable. *)
Definition corrupt_first : gmap string string :=
  <["/a/x.orf"%string := "corrupt"%string]> (<["/b/y.orf"%string := "Y"%string]> ∅).

(** One convertible source. *)
Definition one_source : gmap string string := {["/a/x.orf"%string := "X"%string]}.

(** Two sources with the same stem in different folders. *)
Definition same_stem_sources : gmap string string :=
  <["/a/x.orf"%string := "first"%string]> (<["/b/x.orf"%string := "second"%string]> ∅).


(** ** More readings of the signals *)

(** The base names on the "converting" lines, in order. *)
Definition started_names (tr : list signal) : list string :=
  omap (fun s => match s with
                 | log_message (msg_converting b) => Some b
                 | _ => None
                 end) tr.

(** The log lines among the signals, in order. *)
Definition messages (tr : list signal) : list message :=
  omap (fun s => match s with log_message m => Some m | _ => None end) tr.

(** What the outer [except] of [run] emits. *)
Definition is_failure_report (s : signal) : bool :=
  match s with
  | log_message (msg_critical _) => true
  | finished_signal false => true
  | _ => false
  end.

(** The "removed" line of an item. *)
Definition is_removed (s : signal) : bool :=
  match s with log_message (msg_removed _) => true | _ => false end.

(** The signals of the items: their log lines and their progress values. *)
Definition is_item_event (s : signal) : bool :=
  is_started s || is_removed s || is_terminal s || is_progress s.

(** The summary line, which carries the two counts. *)
Definition is_summary (s : signal) : bool :=
  match s with log_message (msg_done _ _) => true | _ => false end.

(** The line of the outer [except]. *)
Definition is_critical (s : signal) : bool :=
  match s with log_message (msg_critical _) => true | _ => false end.

(** What reports the end of a batch: the finished signal, which carries
    the success flag, and the log line emitted with it, the summary line
    or the line of the outer [except]. *)
Definition is_batch_finished (s : signal) : bool :=
  is_finished s || is_summary s || is_critical s.

(** The "error" line of an item whose source could not be removed. *)
Definition is_remove_failed (s : signal) : bool :=
  match s with
  | log_message (msg_error _ DeleteError) => true
  | _ => false
  end.

(** The number of outputs written, read off the signals. *)
Definition written (tr : list signal) : nat :=
  count is_succeeded tr + count is_remove_failed tr.

(** ** The user's actions on the inputs *)

Inductive action : Type :=
  | AddFiles (files : list string)
  | AddFolder (folder : string) (orf_files : list string)
  | ChooseOutputFolder (folder : string)
  | ClearList
  | EditQuality (v : Z)
  | SetDeleteOriginal (b : bool).

Definition perform (a : action) (app : ORFConverterApp) : ORFConverterApp :=
  match a with
  | AddFiles files => add_files files app
  | AddFolder folder orf_files => add_folder folder orf_files app
  | ChooseOutputFolder folder => choose_output_folder folder app
  | ClearList => clear_list app
  | EditQuality v => edit_quality v app
  | SetDeleteOriginal b => set_delete_original b app
  end.

Definition perform_all (acts : list action) (app : ORFConverterApp) : ORFConverterApp :=
  fold_left (fun app a => perform a app) acts app.

(** ** The widgets the slots write to *)

(** A line of the log pane: a line of the thread, or one of the lines the
    window writes itself. *)
Inductive log_line : Type :=
  | line_thread (m : message)          (* add_log_message *)
  | line_added (n : nat)               (* "Добавлено файлов: {n}" *)
  | line_added_folder (n : nat)        (* "Добавлено файлов из папки: {n}" *)
  | line_cleared                       (* "Список файлов очищен" *)
  | line_begin                         (* "=== Начало конвертации ===" *)
  | line_stopped.                      (* "Конвертация остановлена пользователем" *)

Inductive status : Type :=
  | status_ready                       (* "Готов к работе" *)
  | status_success                     (* "Конвертация завершена успешно" *)
  | status_errors.                     (* "Конвертация завершена с ошибками" *)

(** A [QProgressBar]: range 0..100 and no value when created; [setValue]
    ignores a value outside the range (unless the range is 0..0). *)
Record QProgressBar : Type := {
  bar_minimum : Z;
  bar_maximum : Z;
  bar_value : Z;
  bar_visible : bool
}.

Definition QProgressBar_new : QProgressBar :=
  {| bar_minimum := 0; bar_maximum := 100; bar_value := -1; bar_visible := true |}.

Definition bar_setVisible (b : bool) (pb : QProgressBar) : QProgressBar :=
  {| bar_minimum := bar_minimum pb; bar_maximum := bar_maximum pb;
     bar_value := bar_value pb; bar_visible := b |}.

Definition bar_setValue (v : Z) (pb : QProgressBar) : QProgressBar :=
  if (bar_value pb =? v)%Z
     || (((bar_maximum pb <? v)%Z || (v <? bar_minimum pb)%Z)
         && (negb (bar_maximum pb =? 0)%Z || negb (bar_minimum pb =? 0)%Z))
  then pb
  else {| bar_minimum := bar_minimum pb; bar_maximum := bar_maximum pb;
          bar_value := v; bar_visible := bar_visible pb |}.

(** The window: the inputs [start_conversion] reads and the widgets the
    slots write to. *)
Record Window : Type := {
  inputs : ORFConverterApp;
  file_list_widget : list string;
  log_text : list log_line;
  btn_start_enabled : bool;
  btn_stop_enabled : bool;
  progress_bar : QProgressBar;
  status_label : status;
  conversion_thread : option ConversionThread
}.

(** [__init__] and [init_ui]. *)
Definition win_init : Window :=
  {| inputs := init_ui;
     file_list_widget := [];
     log_text := [];
     btn_start_enabled := true;
     btn_stop_enabled := false;
     progress_bar := bar_setVisible false QProgressBar_new;
     status_label := status_ready;
     conversion_thread := None |}.

Definition with_app (a : ORFConverterApp) (w : Window) : Window :=
  {| inputs := a; file_list_widget := file_list_widget w; log_text := log_text w;
     btn_start_enabled := btn_start_enabled w; btn_stop_enabled := btn_stop_enabled w;
     progress_bar := progress_bar w; status_label := status_label w;
     conversion_thread := conversion_thread w |}.

Definition log_append (l : log_line) (w : Window) : Window :=
  {| inputs := inputs w; file_list_widget := file_list_widget w;
     log_text := log_text w ++ [l];
     btn_start_enabled := btn_start_enabled w; btn_stop_enabled := btn_stop_enabled w;
     progress_bar := progress_bar w; status_label := status_label w;
     conversion_thread := conversion_thread w |}.

Definition set_file_list_widget (items : list string) (w : Window) : Window :=
  {| inputs := inputs w; file_list_widget := items; log_text := log_text w;
     btn_start_enabled := btn_start_enabled w; btn_stop_enabled := btn_stop_enabled w;
     progress_bar := progress_bar w; status_label := status_label w;
     conversion_thread := conversion_thread w |}.

Definition set_progress_bar (pb : QProgressBar) (w : Window) : Window :=
  {| inputs := inputs w; file_list_widget := file_list_widget w; log_text := log_text w;
     btn_start_enabled := btn_start_enabled w; btn_stop_enabled := btn_stop_enabled w;
     progress_bar := pb; status_label := status_label w;
     conversion_thread := conversion_thread w |}.

(** [update_file_list]: clear the list widget, then one item per file,
    its base name. *)
Definition update_file_list (w : Window) : Window :=
  set_file_list_widget
    (fold_left (fun items file_path => items ++ [Path.basename file_path])
               (app_file_list (inputs w)) [])
    w.

(** The slot [add_files], [files] being what the dialog returned. *)
Definition win_add_files (files : list string) (w : Window) : Window :=
  match files with
  | [] => w
  | _ => log_append (line_added (length files))
           (update_file_list (with_app (add_files files (inputs w)) w))
  end.

(** The slot [add_folder], [orf_files] being what the two [rglob] calls
    found. *)
Definition win_add_folder (folder : string) (orf_files : list string)
    (w : Window) : Window :=
  if Path.is_empty folder then w
  else match orf_files with
       | [] => w                                (* information box *)
       | _ => log_append (line_added_folder (length orf_files))
                (update_file_list (with_app (add_files orf_files (inputs w)) w))
       end.

Definition win_choose_output_folder (folder : string) (w : Window) : Window :=
  with_app (choose_output_folder folder (inputs w)) w.

Definition win_clear_list (w : Window) : Window :=
  log_append line_cleared
    (set_file_list_widget [] (with_app (clear_list (inputs w)) w)).

(** What [start_conversion] does to the window once the thread [th] is
    built. *)
Definition win_started (th : ConversionThread) (w : Window) : Window :=
  {| inputs := inputs w; file_list_widget := file_list_widget w;
     log_text := log_text w ++ [line_begin];
     btn_start_enabled := false;
     btn_stop_enabled := true;
     progress_bar := bar_setValue 0 (bar_setVisible true (progress_bar w));
     status_label := status_label w;
     conversion_thread := Some th |}.

(** The slot [start_conversion]: the window is left as it is after the
    warning box, and when [os.makedirs] raises. *)
Definition win_start_conversion {content raster} (W : World content raster)
    (w : Window) : exn + Window :=
  match start_conversion W (inputs w) with
  | inl e => inl e
  | inr None => inr w
  | inr (Some th) => inr (win_started th w)
  end.

(** The slot [stop_conversion], [running] being the answer of
    [isRunning()]; calling [stop] and waiting change the thread, not the
    window. *)
Definition win_stop_conversion (running : bool) (w : Window) : Window :=
  match conversion_thread w with
  | Some _ => if running then log_append line_stopped w else w
  | None => w
  end.

Definition update_progress (v : Z) (w : Window) : Window :=
  set_progress_bar (bar_setValue v (progress_bar w)) w.

Definition add_log_message (m : message) (w : Window) : Window :=
  log_append (line_thread m) w.

Definition conversion_finished (success : bool) (w : Window) : Window :=
  {| inputs := inputs w; file_list_widget := file_list_widget w; log_text := log_text w;
     btn_start_enabled := true;
     btn_stop_enabled := false;
     progress_bar := bar_setVisible false (progress_bar w);
     status_label := if success then status_success else status_errors;
     conversion_thread := conversion_thread w |}.

(** The three connections made by [start_conversion], and the delivery of
    the signals of a thread in the order they were emitted. *)
Definition handle (s : signal) (w : Window) : Window :=
  match s with
  | progress v => update_progress v w
  | log_message m => add_log_message m w
  | finished_signal success => conversion_finished success w
  end.

Definition deliver (tr : list signal) (w : Window) : Window :=
  fold_left (fun w s => handle s w) tr w.

(** The windows that clicks, dialogs and delivered signals lead to; a
    button is clicked only while it is enabled. *)
Inductive win_reachable {content raster} (W : World content raster)
    : Window -> Prop :=
  | wr_init : win_reachable W win_init
  | wr_add_files files w :
      win_reachable W w -> win_reachable W (win_add_files files w)
  | wr_add_folder folder orf_files w :
      win_reachable W w -> win_reachable W (win_add_folder folder orf_files w)
  | wr_choose_output_folder folder w :
      win_reachable W w -> win_reachable W (win_choose_output_folder folder w)
  | wr_clear_list w :
      win_reachable W w -> win_reachable W (win_clear_list w)
  | wr_edit_quality v w :
      win_reachable W w -> win_reachable W (with_app (edit_quality v (inputs w)) w)
  | wr_set_delete_original b w :
      win_reachable W w ->
      win_reachable W (with_app (set_delete_original b (inputs w)) w)
  | wr_start w w' :
      win_reachable W w -> btn_start_enabled w = true ->
      win_start_conversion W w = inr w' -> win_reachable W w'
  | wr_stop running w :
      win_reachable W w -> btn_stop_enabled w = true ->
      win_reachable W (win_stop_conversion running w)
  | wr_signal s w :
      win_reachable W w -> win_reachable W (handle s w).

(** Half a unit in the last place of a binary64 number, relative to its
    value. *)
Definition half_ulp : Q := (1 # 2 ^ 53)%Q.

(** Two sources, neither decodable. *)
Definition all_corrupt : gmap string string :=
  <["/a/x.orf"%string := "corrupt"%string]> (<["/b/y.orf"%string := "corrupt"%string]> ∅).


(** ** Proof steps *)

(** Closes the cases where a loop ends without going through a further
    item: nothing is emitted and nothing is counted. *)
Ltac no_item :=
  exists []; cbn; rewrite app_nil_r;
  split; [reflexivity | split; [lia | split; [constructor | left; reflexivity]]].

(** * Properties *)

(** ** Rounding *)

Module PyFloatFacts.
Import PyFloat.
Local Open Scope Q_scope.

Lemma pow2_pos e : 0 < pow2 e.
Proof. apply Qpower_0_lt. reflexivity. Qed.

Lemma pow2_add a b : pow2 (a + b) == pow2 a * pow2 b.
Proof. apply Qpower_plus. discriminate. Qed.

Lemma pow2_le a b : (a <= b)%Z -> pow2 a <= pow2 b.
Proof. intros H. apply Qpower_le_compat_l; [exact H | discriminate]. Qed.

Lemma pow2_inject n : (0 <= n)%Z -> inject_Z (2 ^ n) == pow2 n.
Proof. intros H. apply (Zpower_Qpower 2 n H). Qed.

Lemma Q_num_den q : q * inject_Z (Zpos (Qden q)) == inject_Z (Qnum q).
Proof.
  destruct q as [n d]. simpl. unfold Qeq, Qmult, inject_Z. simpl. lia.
Qed.

Lemma Qnum_pos q : 0 < q -> (0 < Qnum q)%Z.
Proof. destruct q as [n d]. unfold Qlt. simpl. lia. Qed.

(** The quotient of two positive integers lies within a factor two of
    the power of two given by the difference of their bit lengths. *)
Lemma log2_bracket q :
  0 < q ->
  let l := (Z.log2 (Qnum q) - Z.log2 (Zpos (Qden q)))%Z in
  pow2 (l - 1) < q /\ q < pow2 (l + 1).
Proof.
  intros Hq l.
  pose proof (Qnum_pos q Hq) as Hn.
  pose proof (Q_num_den q) as Hnd.
  set (n := Qnum q) in *. set (d := Zpos (Qden q)) in *.
  assert (Hd : (0 < d)%Z) by (unfold d; lia).
  destruct (Z.log2_spec n Hn) as [Hn1 Hn2].
  destruct (Z.log2_spec d Hd) as [Hd1 Hd2].
  pose proof (Z.log2_nonneg n) as Hln. pose proof (Z.log2_nonneg d) as Hld.
  rewrite Zle_Qle in Hn1, Hd1. rewrite Zlt_Qlt in Hn2, Hd2.
  rewrite pow2_inject in Hn1, Hd1 by lia.
  rewrite pow2_inject in Hn2, Hd2 by lia.
  rewrite <- Hnd in Hn1, Hn2.
  assert (Hdq : 0 < inject_Z d) by (change 0 with (inject_Z 0); rewrite <- Zlt_Qlt; exact Hd).
  split.
  - apply (Qmult_lt_r _ _ (inject_Z d) Hdq).
    apply Qlt_le_trans with (pow2 (l - 1) * pow2 (Z.succ (Z.log2 d))).
    + apply Qmult_lt_l; [apply pow2_pos | exact Hd2].
    + rewrite <- pow2_add. replace (l - 1 + Z.succ (Z.log2 d))%Z with (Z.log2 n) by (unfold l; lia).
      exact Hn1.
  - apply (Qmult_lt_r _ _ (inject_Z d) Hdq).
    apply Qlt_le_trans with (pow2 (Z.succ (Z.log2 n))); [exact Hn2 |].
    replace (Z.succ (Z.log2 n)) with (l + 1 + Z.log2 d)%Z by (unfold l; lia).
    rewrite pow2_add. apply Qmult_le_l; [apply pow2_pos | exact Hd1].
Qed.

Lemma ulp_exp_spec q :
  0 < q -> pow2 (ulp_exp q + 52) <= q /\ q < pow2 (ulp_exp q + 53).
Proof.
  intros Hq. destruct (log2_bracket q Hq) as [Hlo Hhi].
  unfold ulp_exp.
  set (l := (Z.log2 (Qnum q) - Z.log2 (Zpos (Qden q)))%Z) in *.
  destruct (Qle_bool (pow2 l) q) eqn:E.
  - apply Qle_bool_iff in E.
    replace (l - 52 + 52)%Z with l by lia.
    replace (l - 52 + 53)%Z with (l + 1)%Z by lia. split; assumption.
  - assert (Hlt : q < pow2 l).
    { apply Qnot_le_lt. intros H. apply Qle_bool_iff in H. congruence. }
    replace (l - 53 + 52)%Z with (l - 1)%Z by lia.
    replace (l - 53 + 53)%Z with l by lia. split; [apply Qlt_le_weak|]; assumption.
Qed.

Lemma ulp_exp_mono p q :
  0 < p -> p <= q -> (ulp_exp p <= ulp_exp q)%Z.
Proof.
  intros Hp Hpq.
  assert (Hq : 0 < q) by (eapply Qlt_le_trans; eassumption).
  destruct (ulp_exp_spec p Hp) as [Hp1 _].
  destruct (ulp_exp_spec q Hq) as [_ Hq2].
  destruct (Z_le_gt_dec (ulp_exp p) (ulp_exp q)) as [|Hgt]; [assumption | exfalso].
  assert (H : pow2 (ulp_exp q + 53) <= pow2 (ulp_exp p + 52)) by (apply pow2_le; lia).
  apply (Qlt_irrefl q).
  eapply Qlt_le_trans; [exact Hq2 |].
  eapply Qle_trans; [exact H |]. eapply Qle_trans; eassumption.
Qed.

Lemma rne_bounds t : inject_Z (Qfloor t) <= inject_Z (rne t) /\ (rne t <= Qfloor t + 1)%Z.
Proof.
  unfold rne. rewrite <- Zle_Qle.
  destruct (Qcompare _ _); [destruct (Z.even _) | |]; lia.
Qed.

Lemma rne_inject z : rne (inject_Z z) = z.
Proof.
  unfold rne. rewrite Qfloor_Z.
  destruct (Qcompare_spec (inject_Z z - inject_Z z) (1 # 2)) as [H|H|H];
    [exfalso; lra | reflexivity | exfalso; lra].
Qed.

Lemma rne_mono s t : s <= t -> (rne s <= rne t)%Z.
Proof.
  intros Hst. pose proof (Qfloor_resp_le _ _ Hst) as Hf.
  destruct (Z.eq_dec (Qfloor s) (Qfloor t)) as [E|NE].
  - unfold rne. rewrite E.
    destruct (Qcompare_spec (s - inject_Z (Qfloor t)) (1 # 2)) as [Hs|Hs|Hs];
    destruct (Qcompare_spec (t - inject_Z (Qfloor t)) (1 # 2)) as [Ht|Ht|Ht];
    try destruct (Z.even (Qfloor t)); try lia; exfalso; lra.
  - destruct (rne_bounds s) as [_ Hs]. destruct (rne_bounds t) as [Ht _].
    rewrite <- Zle_Qle in Ht. lia.
Qed.

Lemma round_pos_binade q :
  0 < q ->
  pow2 (ulp_exp q + 52) <= round_pos q /\ round_pos q <= pow2 (ulp_exp q + 53).
Proof.
  intros Hq. destruct (ulp_exp_spec q Hq) as [Hlo Hhi].
  unfold round_pos. set (e := ulp_exp q) in *.
  pose proof (pow2_pos e) as He.
  rewrite pow2_add in Hlo, Hhi. rewrite !pow2_add.
  rewrite (Qmult_comm (pow2 e)) in Hlo, Hhi. rewrite !(Qmult_comm (pow2 e)).
  split; apply Qmult_le_compat_r; try (apply Qlt_le_weak; exact He).
  - rewrite <- (pow2_inject 52) by lia. rewrite <- Zle_Qle.
    rewrite <- (rne_inject (2 ^ 52)). apply rne_mono.
    rewrite (pow2_inject 52) by lia. apply Qle_shift_div_l; assumption.
  - rewrite <- (pow2_inject 53) by lia. rewrite <- Zle_Qle.
    rewrite <- (rne_inject (2 ^ 53)). apply rne_mono.
    rewrite (pow2_inject 53) by lia. apply Qle_shift_div_r; [assumption|].
    apply Qlt_le_weak; assumption.
Qed.

Lemma round_pos_mono p q : 0 < p -> p <= q -> round_pos p <= round_pos q.
Proof.
  intros Hp Hpq.
  assert (Hq : 0 < q) by (eapply Qlt_le_trans; eassumption).
  pose proof (ulp_exp_mono p q Hp Hpq) as He.
  destruct (Z.eq_dec (ulp_exp p) (ulp_exp q)) as [E|NE].
  - unfold round_pos. rewrite E. set (e := ulp_exp q).
    pose proof (pow2_pos e) as Hpos.
    apply Qmult_le_compat_r; [| apply Qlt_le_weak; exact Hpos].
    rewrite <- Zle_Qle. apply rne_mono.
    apply Qle_shift_div_l; [exact Hpos |].
    unfold Qdiv. rewrite <- Qmult_assoc, (Qmult_comm (/ pow2 e)), Qmult_inv_r, Qmult_1_r;
      [exact Hpq | intros H0; rewrite H0 in Hpos; discriminate].
  - destruct (round_pos_binade p Hp) as [_ H1].
    destruct (round_pos_binade q Hq) as [H2 _].
    eapply Qle_trans; [exact H1 |]. eapply Qle_trans; [| exact H2].
    apply pow2_le. lia.
Qed.

Lemma round_pos_gt0 q : 0 < q -> 0 < round_pos q.
Proof.
  intros Hq. destruct (round_pos_binade q Hq) as [H _].
  eapply Qlt_le_trans; [apply pow2_pos | exact H].
Qed.

Lemma round_nonneg q : 0 <= q -> 0 <= round q.
Proof.
  intros Hq. unfold round.
  destruct (Qcompare_spec q 0) as [H|H|H].
  - apply Qle_refl.
  - exfalso. lra.
  - apply Qlt_le_weak, round_pos_gt0, H.
Qed.

(** Rounding to nearest is monotone (stated on the non-negative values,
    the only ones the progress computation produces). *)
Lemma round_mono p q : 0 <= p -> p <= q -> round p <= round q.
Proof.
  intros Hp Hpq. unfold round at 1.
  destruct (Qcompare_spec p 0) as [H|H|H].
  - apply round_nonneg. lra.
  - exfalso. lra.
  - unfold round. destruct (Qcompare_spec q 0) as [H'|H'|H']; try (exfalso; lra).
    apply round_pos_mono; assumption.
Qed.

Lemma round_1 : round 1 == 1.
Proof. vm_compute. reflexivity. Qed.

Lemma round_100 : round (inject_Z 100) == inject_Z 100.
Proof. vm_compute. reflexivity. Qed.

(** [round] against the Standard Library's binary64 division and
    multiplication, for every batch of up to 64 files. *)
Lemma agrees_with_ieee754 : agree_upto 64 = true.
Proof. vm_compute. reflexivity. Qed.

Lemma percent_inr a total :
  total <> 0%nat -> percent a total = inr (percent_val a total).
Proof.
  intros H. unfold percent, true_divide.
  destruct (Z.eqb_spec (Z.of_nat total) 0); [lia | reflexivity].
Qed.

Lemma percent_zero_total a : percent a 0 = inl ZeroDivisionError.
Proof. reflexivity. Qed.

Lemma quotient_nonneg a total : 0 <= inject_Z (Z.of_nat a) / inject_Z (Z.of_nat total).
Proof.
  apply Qmult_le_0_compat.
  - change 0 with (inject_Z 0). rewrite <- Zle_Qle. lia.
  - apply Qinv_le_0_compat. change 0 with (inject_Z 0). rewrite <- Zle_Qle. lia.
Qed.

Lemma quotient_mono a b total :
  (a <= b)%nat ->
  inject_Z (Z.of_nat a) / inject_Z (Z.of_nat total)
    <= inject_Z (Z.of_nat b) / inject_Z (Z.of_nat total).
Proof.
  intros H. apply Qmult_le_compat_r.
  - rewrite <- Zle_Qle. lia.
  - apply Qinv_le_0_compat. change 0 with (inject_Z 0). rewrite <- Zle_Qle. lia.
Qed.

Lemma ratio_nonneg a total : 0 <= ratio a total.
Proof. apply round_nonneg, quotient_nonneg. Qed.

Lemma ratio_mono a b total : (a <= b)%nat -> ratio a total <= ratio b total.
Proof. intros H. apply round_mono; [apply quotient_nonneg | apply quotient_mono, H]. Qed.

Lemma ratio_full total : total <> 0%nat -> ratio total total == 1.
Proof.
  intros H.
  assert (E : inject_Z (Z.of_nat total) / inject_Z (Z.of_nat total) == 1).
  { apply Qmult_inv_r. intros H0. unfold Qeq in H0. simpl in H0. lia. }
  apply Qle_antisym.
  - rewrite <- round_1. apply round_mono; [apply quotient_nonneg | rewrite E; apply Qle_refl].
  - rewrite <- round_1 at 1. apply round_mono; [discriminate | rewrite E; apply Qle_refl].
Qed.

Lemma percent_val_floor x :
  0 <= x -> int_of_float (float_mul x (inject_Z 100)) = Qfloor (round (x * inject_Z 100)).
Proof.
  intros Hx. unfold int_of_float, float_mul.
  assert (H : 0 <= round (x * inject_Z 100)).
  { apply round_nonneg. apply Qmult_le_0_compat; [exact Hx | discriminate]. }
  apply Qle_bool_iff in H. rewrite H. reflexivity.
Qed.

Lemma percent_val_mono a b total :
  (a <= b)%nat -> (percent_val a total <= percent_val b total)%Z.
Proof.
  intros H. unfold percent_val, scaled.
  rewrite !percent_val_floor by apply ratio_nonneg.
  apply Qfloor_resp_le, round_mono.
  - apply Qmult_le_0_compat; [apply ratio_nonneg | discriminate].
  - apply Qmult_le_compat_r; [apply ratio_mono, H | discriminate].
Qed.

Lemma percent_val_full total : total <> 0%nat -> percent_val total total = 100%Z.
Proof.
  intros H. unfold percent_val, scaled.
  rewrite percent_val_floor by apply ratio_nonneg.
  pose proof (ratio_full total H) as E.
  assert (E' : round (ratio total total * inject_Z 100) == inject_Z 100).
  { apply Qle_antisym.
    - rewrite <- round_100 at 2. apply round_mono.
      + apply Qmult_le_0_compat; [apply ratio_nonneg | discriminate].
      + rewrite E. discriminate.
    - rewrite <- round_100 at 1. apply round_mono; [discriminate |].
      rewrite E. discriminate. }
  rewrite (Qfloor_comp _ _ E'). apply Qfloor_Z.
Qed.

Lemma percent_val_nonneg a total : (0 <= percent_val a total)%Z.
Proof.
  unfold percent_val, scaled. rewrite percent_val_floor by apply ratio_nonneg.
  rewrite <- (Qfloor_Z 0). apply Qfloor_resp_le, round_nonneg.
  apply Qmult_le_0_compat; [apply ratio_nonneg | discriminate].
Qed.

(** Short of the last item the value stays below 100. *)
Lemma percent_val_below a total :
  (a < total)%nat -> (Z.of_nat total <= 2 ^ 53)%Z -> (percent_val a total <= 99)%Z.
Proof.
  intros Ha Hsmall. unfold percent_val, scaled.
  rewrite percent_val_floor by apply ratio_nonneg.
  set (c := 1 - (1 # 9007199254740992)).
  assert (Hn : 0 < inject_Z (Z.of_nat total))
    by (change 0 with (inject_Z 0); rewrite <- Zlt_Qlt; lia).
  assert (Hq : inject_Z (Z.of_nat a) / inject_Z (Z.of_nat total) <= c).
  { apply Qle_shift_div_r; [exact Hn|].
    assert (H1 : inject_Z (Z.of_nat a) <= inject_Z (Z.of_nat total) - 1).
    { assert (H : inject_Z (Z.of_nat a) <= inject_Z (Z.of_nat total - 1))
        by (rewrite <- Zle_Qle; lia).
      unfold Z.sub in H. rewrite inject_Z_plus, inject_Z_opp in H.
      change (inject_Z 1) with 1 in H. exact H. }
    assert (H2 : inject_Z (Z.of_nat total) <= inject_Z (2 ^ 53))
      by (rewrite <- Zle_Qle; exact Hsmall).
    change (inject_Z (2 ^ 53)) with (9007199254740992 # 1) in H2.
    unfold c. lra. }
  assert (Hr : ratio a total <= round c).
  { apply round_mono; [apply quotient_nonneg | exact Hq]. }
  transitivity (Qfloor (round (round c * inject_Z 100))).
  - apply Qfloor_resp_le, round_mono.
    + apply Qmult_le_0_compat; [apply ratio_nonneg | discriminate].
    + apply Qmult_le_compat_r; [exact Hr | discriminate].
  - vm_compute. discriminate.
Qed.

Lemma percent_val_le_100 a total :
  (a <= total)%nat -> total <> 0%nat -> (percent_val a total <= 100)%Z.
Proof.
  intros Ha Ht. rewrite <- (percent_val_full total Ht). apply percent_val_mono, Ha.
Qed.
End PyFloatFacts.

(** ** The loop, step by step *)

Section LoopFacts.
Context {content raster : Type} (W : World content raster).
Variable self : ConversionThread.

Lemma item_eq p (st : state content) :
  item W self p st = (inr tt, item_result W self p st).
Proof.
  unfold item, item_result, attempt, files_after_failure, try_except, convert,
    rawpy_decode, imageio_imsave, os_remove, emit, modify, mbind, M_bind, mret, M_ret.
  cbn.
  destruct (fs st !! realpath W p) as [raw|]; [|destruct st; reflexivity].
  destruct (postprocess W raw) as [rgb|]; [|destruct st; reflexivity].
  destruct (can_write W (output_path self p)); [|destruct st; reflexivity].
  destruct (jpeg_encode W rgb (quality self)) as [bytes|]; [|reflexivity].
  destruct (delete_original self); [|reflexivity].
  cbn.
  destruct (<[realpath W (output_path self p):=bytes]> (fs st) !! realpath W p);
    [|reflexivity].
  destruct (can_remove W p); reflexivity.
Qed.

Lemma iteration_eq total i p (st : state content) :
  total <> 0 ->
  iteration W self total i p st = (inr tt, iteration_result W self total i p st).
Proof.
  intros Ht. unfold iteration, mbind, M_bind, lift. rewrite item_eq.
  rewrite (PyFloatFacts.percent_inr _ _ Ht). reflexivity.
Qed.

Lemma for_loop_nil total i (st : state content) :
  for_loop W self total i [] st = (inr tt, st).
Proof. reflexivity. Qed.

Lemma for_loop_run total i p rest (st : state content) :
  total <> 0 -> is_running st = true -> stop_before W i = false ->
  for_loop W self total i (p :: rest) st
  = for_loop W self total (S i) rest (iteration_result W self total i p st).
Proof.
  intros Ht Hr Hs. cbn [for_loop]. unfold interface. rewrite Hs.
  unfold mbind, M_bind, mret, M_ret, get_state. rewrite Hr. cbn.
  rewrite iteration_eq by assumption. reflexivity.
Qed.

Lemma for_loop_break total i p rest (st : state content) :
  stop_before W i = true ->
  for_loop W self total i (p :: rest) st = (inr tt, set_is_running false st).
Proof.
  intros Hs. cbn [for_loop]. unfold interface. rewrite Hs. reflexivity.
Qed.

Lemma set_is_running_same (st : state content) :
  set_is_running (is_running st) st = st.
Proof. destruct st; reflexivity. Qed.

Lemma for_loop_idle total i files (st : state content) :
  is_running st = false ->
  for_loop W self total i files st = (inr tt, st).
Proof.
  intros Hr. destruct files as [|p rest]; [reflexivity|].
  destruct (stop_before W i) eqn:Hs.
  - rewrite for_loop_break by assumption. rewrite <- Hr.
    rewrite set_is_running_same. reflexivity.
  - cbn [for_loop]. unfold interface. rewrite Hs.
    unfold mbind, M_bind, mret, M_ret, get_state. rewrite Hr. reflexivity.
Qed.

Lemma item_result_running p (st : state content) :
  is_running (item_result W self p st) = is_running st.
Proof.
  unfold item_result. repeat case_match; reflexivity.
Qed.

Lemma iteration_result_running total i p (st : state content) :
  is_running (iteration_result W self total i p st) = is_running st.
Proof. apply item_result_running. Qed.

Lemma item_result_block p (st : state content) :
  exists blk, item_block p blk /\
              signals (item_result W self p st) = signals st ++ blk.
Proof.
  unfold item_result.
  repeat case_match; cbn; rewrite <- ?app_assoc; cbn;
    eexists; (split; [| reflexivity]); constructor.
Qed.

(** The loop never raises when the divisor of the progress value is
    not zero. *)
Lemma for_loop_inr total i files (st : state content) :
  total <> 0 -> fst (for_loop W self total i files st) = inr tt.
Proof.
  intros Ht. revert i st. induction files as [|p rest IH]; intros i st; [reflexivity|].
  destruct (stop_before W i) eqn:Hs; [rewrite for_loop_break by assumption; reflexivity|].
  destruct (is_running st) eqn:Hr; [|rewrite for_loop_idle by assumption; reflexivity].
  rewrite for_loop_run by assumption. apply IH.
Qed.

Lemma for_loop_app total i l1 l2 (st : state content) :
  total <> 0 ->
  for_loop W self total i (l1 ++ l2) st
  = for_loop W self total (i + length l1) l2 (snd (for_loop W self total i l1 st)).
Proof.
  intros Ht. revert i st. induction l1 as [|p rest IH]; intros i st.
  - cbn. rewrite Nat.add_0_r. reflexivity.
  - cbn [app length].
    destruct (stop_before W i) eqn:Hs.
    { rewrite !for_loop_break by assumption. cbn [snd].
      rewrite for_loop_idle by reflexivity. reflexivity. }
    destruct (is_running st) eqn:Hr.
    2:{ rewrite !(for_loop_idle _ _ (_ :: _)) by assumption. cbn [snd].
        rewrite for_loop_idle by assumption. reflexivity. }
    rewrite !for_loop_run by assumption. rewrite IH.
    replace (i + S (length rest)) with (S i + length rest) by lia. reflexivity.
Qed.

(** The signals of the loop are the blocks of the items it went
    through, in order. *)
Lemma for_loop_blocks total i files (st : state content) :
  total <> 0 -> is_running st = true ->
  exists bs,
    signals (snd (for_loop W self total i files st)) = signals st ++ concat bs /\
    blocks total i (take (iterations W i (length files)) files) bs.
Proof.
  intros Ht. revert i st. induction files as [|p rest IH]; intros i st Hr.
  - exists []. cbn. rewrite app_nil_r. split; [reflexivity | exact I].
  - cbn [length iterations].
    destruct (stop_before W i) eqn:Hs.
    + rewrite for_loop_break by assumption. exists []. cbn.
      rewrite app_nil_r. split; [reflexivity | exact I].
    + rewrite for_loop_run by assumption.
      destruct (IH (S i) (iteration_result W self total i p st)) as (bs & Hsig & Hbs).
      { rewrite iteration_result_running. exact Hr. }
      destruct (item_result_block p st) as (blk & Hblk & Hitem).
      exists ((blk ++ [progress (percent_val (i + 1) total)]) :: bs).
      split.
      * rewrite Hsig. unfold iteration_result. cbn. rewrite Hitem.
        rewrite <- !app_assoc. reflexivity.
      * cbn. split; [exists blk; split; [exact Hblk | reflexivity] | exact Hbs].
Qed.

Lemma run_eq (st : state content) :
  let total := length (file_list self) in
  let st1 := snd (for_loop W self total 0 (file_list self) (set_successful 0 st)) in
  run W self st
  = (inr tt, add_signal (log_message (msg_done (successful st1) total))
               (add_signal (finished_signal true) st1)).
Proof.
  cbv zeta. unfold run, try_except, mbind, M_bind, modify, emit, get_state.
  pose proof (for_loop_inr (length (file_list self)) 0 (file_list self)
                (set_successful 0 st)) as Hinr.
  destruct (file_list self) as [|p rest]; [reflexivity|].
  specialize (Hinr ltac:(discriminate)).
  destruct (for_loop W self (length (p :: rest)) 0 (p :: rest) (set_successful 0 st))
    as [[e|[]] st1]; [discriminate | reflexivity].
Qed.

Lemma trace_eq (files : gmap string content) :
  let total := length (file_list self) in
  let st1 := snd (for_loop W self total 0 (file_list self) (initial files)) in
  trace W self files
  = signals st1 ++ [finished_signal true;
                    log_message (msg_done (successful st1) total)].
Proof.
  intros total st1. unfold trace. rewrite run_eq. cbn.
  rewrite <- app_assoc. reflexivity.
Qed.
End LoopFacts.

(** ** Counting signals in blocks *)

Section Counting.
Lemma count_app f (a b : list signal) : count f (a ++ b) = count f a + count f b.
Proof. unfold count. rewrite List.filter_app, length_app. reflexivity. Qed.

Lemma progress_values_app (a b : list signal) :
  progress_values (a ++ b) = progress_values a ++ progress_values b.
Proof. apply omap_app. Qed.

Lemma item_block_terminal p blk : item_block p blk -> count is_terminal blk = 1.
Proof. intros []; reflexivity. Qed.

Lemma item_block_started p blk : item_block p blk -> count is_started blk = 1.
Proof. intros []; reflexivity. Qed.

Lemma item_block_finished p blk : item_block p blk -> count is_finished blk = 0.
Proof. intros []; reflexivity. Qed.

Lemma item_block_progress p blk : item_block p blk -> progress_values blk = [].
Proof. intros []; reflexivity. Qed.

Lemma count_skipped tr : count is_skipped tr = 0.
Proof. induction tr as [|s tr IH]; [reflexivity | exact IH]. Qed.

Lemma blocks_length total i files bs : blocks total i files bs -> length bs = length files.
Proof.
  revert i bs. induction files as [|p rest IH]; intros i [|b bs] H; cbn in *;
    try contradiction; [reflexivity|].
  destruct H as [_ H]. f_equal. eapply IH, H.
Qed.

Lemma blocks_terminal total i files bs :
  blocks total i files bs -> count is_terminal (concat bs) = length files.
Proof.
  revert i bs. induction files as [|p rest IH]; intros i [|b bs] H;
    cbn [blocks] in H; try contradiction; [reflexivity|].
  destruct H as [(blk & Hblk & ->) H]. cbn [concat length].
  rewrite !count_app, (item_block_terminal _ _ Hblk), (IH _ _ H). reflexivity.
Qed.

Lemma blocks_started total i files bs :
  blocks total i files bs -> count is_started (concat bs) = length files.
Proof.
  revert i bs. induction files as [|p rest IH]; intros i [|b bs] H;
    cbn [blocks] in H; try contradiction; [reflexivity|].
  destruct H as [(blk & Hblk & ->) H]. cbn [concat length].
  rewrite !count_app, (item_block_started _ _ Hblk), (IH _ _ H). reflexivity.
Qed.

Lemma blocks_finished total i files bs :
  blocks total i files bs -> count is_finished (concat bs) = 0.
Proof.
  revert i bs. induction files as [|p rest IH]; intros i [|b bs] H;
    cbn [blocks] in H; try contradiction; [reflexivity|].
  destruct H as [(blk & Hblk & ->) H]. cbn [concat length].
  rewrite !count_app, (item_block_finished _ _ Hblk), (IH _ _ H). reflexivity.
Qed.

Lemma blocks_progress total i files bs :
  blocks total i files bs ->
  progress_values (concat bs)
  = (fun a => percent_val a total) <$> seq (S i) (length files).
Proof.
  revert i bs. induction files as [|p rest IH]; intros i [|b bs] H;
    cbn [blocks] in H; try contradiction; [reflexivity|].
  destruct H as [(blk & Hblk & ->) H]. cbn [concat length seq fmap list_fmap].
  rewrite !progress_values_app, (item_block_progress _ _ Hblk), (IH _ _ H).
  cbn. replace (i + 1) with (S i) by lia. reflexivity.
Qed.
End Counting.

(** ** How far the loop gets *)

Section Iterations.
Context {content raster : Type} (W : World content raster).

Lemma iterations_le i n : iterations W i n <= n.
Proof.
  revert i. induction n as [|n IH]; intros i; cbn; [lia|].
  destruct (stop_before W i); [lia|]. specialize (IH (S i)). lia.
Qed.

Lemma iterations_all i n :
  (forall j, i <= j < i + n -> stop_before W j = false) -> iterations W i n = n.
Proof.
  revert i. induction n as [|n IH]; intros i H; cbn; [reflexivity|].
  rewrite (H i) by lia. f_equal. apply IH. intros j Hj. apply H. lia.
Qed.

Lemma iterations_first_stop i n k :
  i <= k < i + n -> stop_before W k = true ->
  (forall j, i <= j < k -> stop_before W j = false) ->
  iterations W i n = k - i.
Proof.
  revert i. induction n as [|n IH]; intros i Hk Hs Hbefore; [lia|]. cbn.
  destruct (Nat.eq_dec i k) as [->|Hne].
  - rewrite Hs. lia.
  - rewrite (Hbefore i) by lia. rewrite (IH (S i)); [lia | lia | exact Hs |].
    intros j Hj. apply Hbefore. lia.
Qed.
End Iterations.

(** ** Cancellation *)

Section Cancel.
Context {content raster : Type} (W : World content raster).
Variable self : ConversionThread.

(** Up to the flag, a loop stopped by the interface leaves the state
    that the never-stopped loop leaves on the items gone through. *)
Lemma for_loop_as_never_stopped total i files (st : state content) :
  total <> 0 -> is_running st = true ->
  let a := snd (for_loop W self total i files st) in
  let b := snd (for_loop (never_stopped W) self total i
                  (take (iterations W i (length files)) files) st) in
  signals a = signals b /\ fs a = fs b /\ successful a = successful b.
Proof.
  intros Ht. revert i st. induction files as [|p rest IH]; intros i st Hr.
  - cbn. auto.
  - cbn [length iterations]. destruct (stop_before W i) eqn:Hs.
    + rewrite for_loop_break by assumption. cbn. auto.
    + cbn [take]. rewrite for_loop_run by assumption.
      rewrite (for_loop_run (never_stopped W)) by (assumption || reflexivity).
      apply (IH (S i) (iteration_result W self total i p st)).
      rewrite iteration_result_running. exact Hr.
Qed.
End Cancel.


(** C1, as stated, fails: with two items and [stop] called before the
    second starts, the first item reports its outcome, nothing at all is
    emitted for the second (no signal reports a skipped item), and the run
    has one terminal event for two items. *)
Lemma cancel_emits_no_skipped_counterexample :
  let th := ConversionThread_init two_files "/out" 90 false in
  stop_before stopped_after_first 1 = true /\
  length (file_list th) = 2 /\
  trace stopped_after_first th two_sources
  = [log_message (msg_converting "x.orf"); log_message (msg_success "x.jpg");
     progress 50; finished_signal true; log_message (msg_done 1 2)] /\
  count is_terminal (trace stopped_after_first th two_sources) <> length (file_list th).
Proof. vm_compute. repeat split; discriminate. Qed.

(** C1, amended: when the loop first finds [stop] called at the test of
    item [k] (counting from 0), the signals of the run are those the first
    [k] items produce in a run that is never stopped, then the finished
    signal and the summary line; the items from [k] on produce no signal,
    so the run has [k] started and [k] terminal events and no skipped
    one. *)
Theorem cancel_truncates_run {content raster} (W : World content raster)
    (self : ConversionThread) (files : gmap string content) (k : nat) :
  k < length (file_list self) ->
  stop_before W k = true ->
  (forall j, j < k -> stop_before W j = false) ->
  let total := length (file_list self) in
  let natural := snd (for_loop (never_stopped W) self total 0
                        (take k (file_list self)) (initial files)) in
  trace W self files
  = signals natural ++ [finished_signal true;
                        log_message (msg_done (successful natural) total)]
  /\ count is_terminal (trace W self files) = k
  /\ count is_started (trace W self files) = k
  /\ count is_skipped (trace W self files) = 0.
Proof.
  intros Hk Hstop Hbefore total natural.
  assert (Ht : total <> 0) by (unfold total; lia).
  assert (Hit : iterations W 0 total = k).
  { rewrite (iterations_first_stop W 0 total k); [lia | lia | exact Hstop |].
    intros j Hj. apply Hbefore. lia. }
  destruct (for_loop_as_never_stopped W self total 0 (file_list self) (initial files) Ht eq_refl)
    as (Hsig & _ & Hsucc).
  fold total in Hsig, Hsucc. rewrite Hit in Hsig, Hsucc. fold natural in Hsig, Hsucc.
  destruct (for_loop_blocks W self total 0 (file_list self) (initial files) Ht eq_refl)
    as (bs & Hbs & Hblocks).
  fold total in Hblocks. rewrite Hit in Hblocks.
  assert (Hlen : length (take k (file_list self)) = k) by (rewrite length_take; lia).
  rewrite trace_eq. fold total. rewrite Hsig, Hsucc. split; [reflexivity|].
  rewrite <- Hsig, Hbs. cbn [signals initial app].
  rewrite !count_app.
  rewrite (blocks_terminal _ _ _ _ Hblocks), (blocks_started _ _ _ _ Hblocks), Hlen.
  rewrite count_skipped. cbn. lia.
Qed.

(** C1, amended, on the two-item run stopped before its second item. *)
Lemma cancel_truncates_run_witness :
  let th := ConversionThread_init two_files "/out" 90 false in
  count is_terminal (trace stopped_after_first th two_sources) = 1.
Proof.
  intros th.
  refine (proj1 (proj2 (cancel_truncates_run stopped_after_first th two_sources 1 _ _ _))).
  - vm_compute. lia.
  - reflexivity.
  - intros j Hj. assert (j = 0) as -> by lia. reflexivity.
Defined.

(** ** The signals of a whole run *)

Section RunShape.
Context {content raster : Type} (W : World content raster).
Variable self : ConversionThread.

(** The signals of a run: the blocks of the items gone through, the
    finished signal, the summary line. *)
Lemma trace_blocks (files : gmap string content) :
  let total := length (file_list self) in
  exists bs s,
    trace W self files
    = concat bs ++ [finished_signal true; log_message (msg_done s total)] /\
    blocks total 0 (take (iterations W 0 total) (file_list self)) bs.
Proof.
  cbv zeta. rewrite trace_eq.
  destruct (Nat.eq_dec (length (file_list self)) 0) as [H0|Ht].
  - apply nil_length_inv in H0. rewrite H0. exists [], 0.
    split; [reflexivity | exact I].
  - destruct (for_loop_blocks W self _ 0 (file_list self) (initial files) Ht eq_refl)
      as (bs & Hbs & Hblocks).
    exists bs, (successful (snd (for_loop W self (length (file_list self)) 0
                                   (file_list self) (initial files)))).
    rewrite Hbs. split; [reflexivity | exact Hblocks].
Qed.

Lemma trace_progress (files : gmap string content) :
  let total := length (file_list self) in
  progress_values (trace W self files)
  = (fun a => percent_val a total) <$> seq 1 (iterations W 0 total).
Proof.
  intros total. destruct (trace_blocks files) as (bs & s & Htr & Hblocks).
  fold total in Htr, Hblocks. rewrite Htr, progress_values_app.
  rewrite (blocks_progress _ _ _ _ Hblocks). cbn [progress_values omap].
  rewrite app_nil_r, length_take.
  pose proof (iterations_le W 0 total). unfold total in *.
  rewrite Nat.min_l by lia. reflexivity.
Qed.

Lemma trace_terminal (files : gmap string content) :
  count is_terminal (trace W self files) = iterations W 0 (length (file_list self)).
Proof.
  destruct (trace_blocks files) as (bs & s & Htr & Hblocks).
  rewrite Htr, count_app, (blocks_terminal _ _ _ _ Hblocks), length_take.
  pose proof (iterations_le W 0 (length (file_list self))).
  rewrite Nat.min_l by lia. cbn. lia.
Qed.
End RunShape.

(** ** The loop over the list object *)

Section LiveList.
Context {content raster : Type} (W : World content raster).
Variable self : ConversionThread.

(** While the interface leaves the list alone, the loop over the list
    object is the loop over its items. *)
Lemma live_loop_untouched total i l edits (st : state content) :
  Forall (fun es => es = []) edits ->
  live_loop W self total i l edits st = for_loop W self total i (drop i l) st.
Proof.
  intros H. revert i st. induction H as [|es edits -> _ IH]; intros i st;
    [reflexivity|].
  cbn [live_loop foldl]. cbv zeta.
  destruct (l !! i) as [p|] eqn:E.
  - rewrite (drop_S _ _ _ E). cbn [for_loop].
    unfold mbind, M_bind.
    destruct (interface W i st) as [[e|[]] st1]; [reflexivity|].
    unfold get_state. destruct (negb (is_running st1)); [reflexivity|].
    destruct (iteration W self total i p st1) as [[e|[]] st2]; [reflexivity|].
    apply IH.
  - rewrite drop_ge by (apply lookup_ge_None; exact E). reflexivity.
Qed.

Lemma live_run_untouched (st : state content) :
  list_untouched W -> live_run W self st = run W self st.
Proof.
  intros H. unfold live_run, run, try_except, mbind, M_bind.
  destruct (modify (set_successful 0) st) as [[e|[]] st1]; [reflexivity|].
  rewrite (live_loop_untouched _ 0 (file_list self) (list_edits W) st1 H).
  reflexivity.
Qed.

Lemma live_trace_untouched (files : gmap string content) :
  list_untouched W -> live_trace W self files = trace W self files.
Proof. intros H. unfold live_trace, trace. rewrite live_run_untouched by exact H. reflexivity. Qed.

Lemma iteration_cases total i p (st : state content) :
  iteration W self total i p st
  = match percent (i + 1) total with
    | inr v => (inr tt, add_signal (progress v) (item_result W self p st))
    | inl e => (inl e, item_result W self p st)
    end.
Proof.
  unfold iteration, mbind, M_bind, lift. rewrite item_eq.
  destruct (percent (i + 1) total); reflexivity.
Qed.

Lemma percent_raises a total e :
  percent a total = inl e -> total = 0 /\ e = ZeroDivisionError.
Proof.
  destruct total as [|n].
  - rewrite PyFloatFacts.percent_zero_total. intros [= <-]. split; reflexivity.
  - rewrite PyFloatFacts.percent_inr by discriminate. discriminate.
Qed.

(** What holds at the start, and is kept by the flag being cleared, by
    every item and by every signal, holds after the loop, however the
    loop ends and whatever the interface does to the list. *)
Lemma iteration_invariant (P : state content -> Prop) total i p st :
  (forall s st, P st -> P (add_signal s st)) ->
  (forall p st, P st -> P (item_result W self p st)) ->
  P st -> P (snd (iteration W self total i p st)).
Proof.
  intros Hsig Hitem HP. rewrite iteration_cases.
  destruct (percent (i + 1) total); cbn [snd]; [|apply Hsig]; apply Hitem, HP.
Qed.

Lemma for_loop_invariant_any (P : state content -> Prop) total i files st :
  (forall st, P st -> P (set_is_running false st)) ->
  (forall s st, P st -> P (add_signal s st)) ->
  (forall p st, P st -> P (item_result W self p st)) ->
  P st -> P (snd (for_loop W self total i files st)).
Proof.
  intros Hstop Hsig Hitem. revert i st.
  induction files as [|p rest IH]; intros i st HP; [exact HP|].
  destruct (stop_before W i) eqn:Hs.
  { rewrite for_loop_break by assumption. apply Hstop, HP. }
  destruct (is_running st) eqn:Hr.
  2:{ rewrite for_loop_idle by assumption. exact HP. }
  cbn [for_loop]. unfold interface. rewrite Hs.
  unfold mbind, M_bind, mret, M_ret, get_state. rewrite Hr. cbn [negb].
  pose proof (iteration_invariant P total i p st Hsig Hitem HP) as H1.
  destruct (iteration W self total i p st) as [[e|[]] st1]; cbn [snd] in *;
    [exact H1 | apply IH, H1].
Qed.

Lemma live_loop_invariant (P : state content -> Prop) total i l edits st :
  (forall st, P st -> P (set_is_running false st)) ->
  (forall s st, P st -> P (add_signal s st)) ->
  (forall p st, P st -> P (item_result W self p st)) ->
  P st -> P (snd (live_loop W self total i l edits st)).
Proof.
  intros Hstop Hsig Hitem. revert i l st.
  induction edits as [|es edits IH]; intros i l st HP.
  { cbn [live_loop]. apply for_loop_invariant_any; assumption. }
  cbn [live_loop]. cbv zeta. set (l' := foldl apply_edit l es).
  destruct (l' !! i) as [p|]; [|exact HP].
  unfold mbind, M_bind, mret, M_ret, interface, get_state.
  destruct (stop_before W i) eqn:Hs; [apply Hstop, HP|].
  cbn. destruct (is_running st) eqn:Hr; cbn [negb]; [|exact HP].
  pose proof (iteration_invariant P total i p st Hsig Hitem HP) as H1.
  destruct (iteration W self total i p st) as [[e|[]] st1]; cbn [snd] in *;
    [exact H1 | apply IH, H1].
Qed.

Lemma live_run_invariant (P : state content -> Prop) (st : state content) :
  (forall st, P st -> P (set_is_running false st)) ->
  (forall n st, P st -> P (set_successful n st)) ->
  (forall s st, P st -> P (add_signal s st)) ->
  (forall p st, P st -> P (item_result W self p st)) ->
  P st -> P (snd (live_run W self st)).
Proof.
  intros Hstop Hsucc Hsig Hitem HP.
  pose proof (live_loop_invariant P (length (file_list self)) 0 (file_list self)
                (list_edits W) (set_successful 0 st) Hstop Hsig Hitem (Hsucc 0 st HP))
    as H1.
  unfold live_run, try_except, mbind, M_bind, modify, emit, get_state.
  destruct (live_loop W self (length (file_list self)) 0 (file_list self)
              (list_edits W) (set_successful 0 st)) as [[e|[]] st1]; cbn [snd] in *;
    apply Hsig, Hsig, H1.
Qed.

(** Whatever the interface does to the list, the loop returns, and its
    signals are the blocks of the items it fetched. *)
Lemma live_loop_blocks total i l edits (st : state content) :
  total <> 0 -> is_running st = true ->
  exists fetched bs,
    fst (live_loop W self total i l edits st) = inr tt /\
    signals (snd (live_loop W self total i l edits st)) = signals st ++ concat bs /\
    blocks total i fetched bs.
Proof.
  intros Ht. revert i l st. induction edits as [|es edits IH]; intros i l st Hr.
  - cbn [live_loop].
    destruct (for_loop_blocks W self total i (drop i l) st Ht Hr) as (bs & Hsig & Hbs).
    eexists _, bs. split; [apply for_loop_inr, Ht | split; [exact Hsig | exact Hbs]].
  - cbn [live_loop]. cbv zeta. set (l' := foldl apply_edit l es).
    destruct (l' !! i) as [p|].
    2:{ exists [], []. cbn. rewrite app_nil_r. repeat split. }
    unfold mbind, M_bind, interface.
    destruct (stop_before W i) eqn:Hs.
    + exists [], []. cbn. rewrite app_nil_r. repeat split.
    + cbn. unfold get_state. rewrite Hr. cbn.
      rewrite iteration_eq by exact Ht.
      destruct (IH (S i) l' (iteration_result W self total i p st)) as (fetched & bs & H1 & H2 & H3).
      { rewrite iteration_result_running. exact Hr. }
      destruct (item_result_block W self p st) as (blk & Hblk & Hitem).
      exists (p :: fetched), ((blk ++ [progress (percent_val (i + 1) total)]) :: bs).
      split; [exact H1 | split].
      * rewrite H2. unfold iteration_result. cbn. rewrite Hitem.
        rewrite <- !app_assoc. reflexivity.
      * cbn. split; [exists blk; split; [exact Hblk | reflexivity] | exact H3].
Qed.

(** With a list that is not empty when it starts, a run returns normally
    whatever the interface does to the list, and ends with the finished
    signal and the summary line. *)
Lemma live_trace_blocks (files : gmap string content) :
  file_list self <> [] ->
  fst (live_run W self (initial files)) = inr tt /\
  exists fetched bs s,
    live_trace W self files
    = concat bs ++ [finished_signal true;
                    log_message (msg_done s (length (file_list self)))] /\
    blocks (length (file_list self)) 0 fetched bs.
Proof.
  intros Hne.
  assert (Ht : length (file_list self) <> 0)
    by (destruct (file_list self); [contradiction | discriminate]).
  destruct (live_loop_blocks (length (file_list self)) 0 (file_list self) (list_edits W)
              (initial files) Ht eq_refl) as (fetched & bs & H1 & H2 & H3).
  unfold live_trace, live_run, try_except, mbind, M_bind, modify, emit, get_state.
  change (set_successful 0 (initial files)) with (initial files).
  destruct (live_loop W self (length (file_list self)) 0 (file_list self)
              (list_edits W) (initial files)) as [[e|[]] st1]; [discriminate|].
  cbn [fst snd] in *. split; [reflexivity|].
  exists fetched, bs, (successful st1). cbn. rewrite H2. cbn.
  rewrite <- app_assoc. split; [reflexivity | exact H3].
Qed.
End LiveList.

(** C5, as stated, fails, in three ways.  With two items and [stop]
    called before the second starts, the only progress value is 50.  With
    one item listed when the run starts and a second one added to the list
    while the first is converted, the loop goes through both and the
    progress values are 100 and 200.  And with two items and the list
    cleared while the first is converted, the loop ends after the first,
    with 50 as the only progress value although [stop] was never
    called. *)
Lemma progress_stops_short_counterexample :
  let th := ConversionThread_init two_files "/out" 90 false in
  let th1 := ConversionThread_init ["/a/x.orf"%string] "/out" 90 false in
  1 <= length (file_list th) /\
  list_untouched stopped_after_first /\
  progress_values (live_trace stopped_after_first th two_sources) = [50%Z] /\
  last (progress_values (live_trace stopped_after_first th two_sources)) <> Some 100%Z /\
  1 <= length (file_list th1) /\
  live_trace growing_world th1 two_sources
  = [log_message (msg_converting "x.orf"); log_message (msg_success "x.jpg");
     progress 100;
     log_message (msg_converting "y.orf"); log_message (msg_success "y.jpg");
     progress 200;
     finished_signal true; log_message (msg_done 2 1)] /\
  ~ Forall (fun v => 0 <= v <= 100)%Z
      (progress_values (live_trace growing_world th1 two_sources)) /\
  (forall i, stop_before cleared_world i = false) /\
  live_trace cleared_world th two_sources
  = [log_message (msg_converting "x.orf"); log_message (msg_success "x.jpg");
     progress 50;
     finished_signal true; log_message (msg_done 1 2)].
Proof.
  cbv zeta. split; [vm_compute; lia|]. split; [constructor|].
  split; [vm_compute; reflexivity|]. split; [vm_compute; discriminate|].
  split; [vm_compute; lia|]. split; [vm_compute; reflexivity|].
  split; [|split; [reflexivity | vm_compute; reflexivity]].
  intros H. vm_compute in H.
  inversion H as [|? ? _ H']; subst. inversion H' as [|? ? [_ Hle] _]; subst.
  apply Hle. reflexivity.
Qed.

(** C5, amended.  In every run on [N >= 1] items, whatever the interface
    does meanwhile, the progress values are those of the items gone
    through, one after the other: they never decrease and are not
    negative, and as many items have their terminal event.  When the
    interface leaves the list alone during the run, they are those of the
    first [k] items, [k <= N] being the number of items gone through
    before [stop] is seen, and lie between 0 and 100.  When moreover
    [stop] is not called, [k = N] and the last value is 100.  When [stop]
    is first seen at the test of item [j], [k = j]: the run emits exactly
    the values of the first [j] items, none at all when [j = 0], and (for
    no more than 2^53 files) every one of them is below 100. *)
Theorem progress_monotone_bounded {content raster} (W : World content raster)
    (self : ConversionThread) (files : gmap string content) :
  let N := length (file_list self) in
  let k := iterations W 0 N in
  let values := progress_values (live_trace W self files) in
  1 <= N ->
  (exists m,
     values = (fun a => percent_val a N) <$> seq 1 m /\
     count is_terminal (live_trace W self files) = m) /\
  nondecreasing values /\
  Forall (fun v => 0 <= v)%Z values /\
  (list_untouched W ->
   k <= N /\
   values = (fun a => percent_val a N) <$> seq 1 k /\
   Forall (fun v => 0 <= v <= 100)%Z values /\
   count is_terminal (live_trace W self files) = k /\
   ((forall j, j < N -> stop_before W j = false) ->
    k = N /\ last values = Some 100%Z) /\
   (forall j,
      j < N -> stop_before W j = true ->
      (forall i, i < j -> stop_before W i = false) ->
      k = j /\ length values = j /\ (j = 0 -> values = []) /\
      ((Z.of_nat N <= 2 ^ 53)%Z -> Forall (fun v => 0 <= v <= 99)%Z values))).
Proof.
  intros N k values Hn.
  assert (Ht : N <> 0) by lia.
  assert (Hne : file_list self <> []).
  { intros H. unfold N in Hn. rewrite H in Hn. cbn in Hn. lia. }
  destruct (live_trace_blocks W self files Hne) as (_ & fetched & bs & s & Htr & Hblocks).
  fold N in Htr, Hblocks.
  assert (Hvalues : values = (fun a => percent_val a N) <$> seq 1 (length fetched)).
  { unfold values. rewrite Htr, progress_values_app, (blocks_progress _ _ _ _ Hblocks).
    cbn. apply app_nil_r. }
  split; [|split; [|split]].
  - exists (length fetched). split; [exact Hvalues|].
    rewrite Htr, count_app, (blocks_terminal _ _ _ _ Hblocks). cbn. lia.
  - rewrite Hvalues. intros i j v w Hij Hi Hj.
    rewrite list_lookup_fmap in Hi, Hj.
    destruct (seq 1 (length fetched) !! i) as [a|] eqn:Ha; [|discriminate].
    destruct (seq 1 (length fetched) !! j) as [b|] eqn:Hb; [|discriminate].
    apply lookup_seq in Ha as [-> _]. apply lookup_seq in Hb as [-> _].
    cbn in Hi, Hj. injection Hi as <-. injection Hj as <-.
    apply PyFloatFacts.percent_val_mono. lia.
  - rewrite Hvalues. apply Forall_fmap, Forall_forall. intros a _.
    apply PyFloatFacts.percent_val_nonneg.
  - intros Hlist. clear Hvalues Htr Hblocks. subst values.
    rewrite (live_trace_untouched W self files Hlist).
    pose proof (iterations_le W 0 N) as Hle. fold k in Hle.
    rewrite trace_progress, trace_terminal. fold N k.
    split; [exact Hle|]. split; [reflexivity|].
    split; [|split; [reflexivity|split]].
    + apply Forall_fmap, Forall_forall. intros a Ha.
      apply elem_of_seq in Ha. cbn. split.
      * apply PyFloatFacts.percent_val_nonneg.
      * apply PyFloatFacts.percent_val_le_100; lia.
    + intros Hnostop.
      assert (Hk : k = N).
      { unfold k. apply iterations_all. intros j Hj. apply Hnostop. lia. }
      split; [exact Hk|]. rewrite Hk.
      destruct N as [|n]; [lia|].
      rewrite seq_S, fmap_app. simpl (_ <$> [_]). rewrite last_snoc.
      rewrite PyFloatFacts.percent_val_full by lia. reflexivity.
    + intros j Hj Hstop Hbefore.
      assert (Hk : k = j).
      { unfold k. rewrite (iterations_first_stop W 0 N j); [lia | lia | exact Hstop |].
        intros i Hi. apply Hbefore. lia. }
      split; [exact Hk|]. rewrite Hk.
      split; [rewrite length_fmap, length_seq; reflexivity|].
      split; [intros ->; reflexivity|].
      intros Hsmall. apply Forall_fmap, Forall_forall. intros a Ha.
      apply elem_of_seq in Ha. cbn. split.
      * apply PyFloatFacts.percent_val_nonneg.
      * apply PyFloatFacts.percent_val_below; [lia | exact Hsmall].
Qed.

(** C5, amended, on the two-item run that is never stopped and on the
    one stopped before its second item. *)
Lemma progress_monotone_bounded_witness :
  let th := ConversionThread_init two_files "/out" 90 false in
  let W := toy_world [] [] [] in
  Forall (fun v => 0 <= v <= 100)%Z (progress_values (live_trace W th two_sources)) /\
  last (progress_values (live_trace W th two_sources)) = Some 100%Z /\
  length (progress_values (live_trace stopped_after_first th two_sources)) = 1.
Proof.
  intros th W.
  destruct (progress_monotone_bounded W th two_sources) as (_ & _ & _ & Hfull);
    [vm_compute; lia|].
  destruct Hfull as (_ & _ & Hrange & _ & Hlast & _); [constructor|].
  destruct (progress_monotone_bounded stopped_after_first th two_sources)
    as (_ & _ & _ & Hcut); [vm_compute; lia|].
  destruct Hcut as (_ & _ & _ & _ & _ & Hstop); [constructor|].
  split; [exact Hrange|]. split.
  - apply Hlast. intros j _. reflexivity.
  - apply (Hstop 1); [vm_compute; lia | reflexivity |].
    intros i Hi. assert (i = 0) as -> by lia. reflexivity.
Defined.



(** ** Failures stay inside their item *)

Section Isolation.
Context {content raster : Type} (W : World content raster).
Variable self : ConversionThread.

Lemma for_loop_extends total i files (st : state content) :
  total <> 0 ->
  exists ext, signals (snd (for_loop W self total i files st)) = signals st ++ ext.
Proof.
  intros Ht. destruct (is_running st) eqn:Hr.
  - destruct (for_loop_blocks W self total i files st Ht Hr) as (bs & H & _).
    exists (concat bs). exact H.
  - rewrite for_loop_idle by assumption. exists []. cbn. rewrite app_nil_r. reflexivity.
Qed.

Lemma for_loop_running total i files (st : state content) :
  total <> 0 -> is_running st = true ->
  (forall j, i <= j < i + length files -> stop_before W j = false) ->
  is_running (snd (for_loop W self total i files st)) = true.
Proof.
  intros Ht. revert i st. induction files as [|p rest IH]; intros i st Hr Hs.
  - exact Hr.
  - rewrite for_loop_run; [| assumption | assumption | apply Hs; cbn; lia].
    apply IH.
    + rewrite iteration_result_running. exact Hr.
    + intros j Hj. apply Hs. cbn. lia.
Qed.

Lemma item_result_failed p e (st : state content) :
  attempt W self p (fs st) = inl e ->
  item_result W self p st
  = add_signal (log_message (msg_error (Path.basename p) e))
      (set_fs (files_after_failure W self p (fs st))
         (add_signal (log_message (msg_converting (Path.basename p))) st)).
Proof. intros H. unfold item_result. rewrite H. reflexivity. Qed.

Lemma item_result_converted p bytes (st : state content) :
  attempt W self p (fs st) = inr bytes ->
  delete_original self = false ->
  item_result W self p st
  = add_signal (log_message (msg_success (output_filename p)))
      (set_successful (successful st + 1)
         (set_fs (<[realpath W (output_path self p) := bytes]> (fs st))
            (add_signal (log_message (msg_converting (Path.basename p))) st))).
Proof. intros H Hd. unfold item_result. rewrite H, Hd. reflexivity. Qed.

(** When [attempt] fails, so do the statements under the inner [try],
    with the same exception. *)
Lemma convert_raises p e (st : state content) :
  attempt W self p (fs st) = inl e -> fst (convert W self p st) = inl e.
Proof.
  unfold attempt, convert, rawpy_decode, imageio_imsave, emit, modify,
    mbind, M_bind, mret, M_ret.
  cbn.
  destruct (fs st !! realpath W p) as [raw|]; [|intros [= <-]; reflexivity].
  destruct (postprocess W raw) as [rgb|]; [|intros [= <-]; reflexivity].
  destruct (can_write W (output_path self p)); [|intros [= <-]; reflexivity].
  destruct (jpeg_encode W rgb (quality self)) as [bytes|];
    [discriminate | intros [= <-]; reflexivity].
Qed.

Lemma attempt_source p bytes (files : gmap string content) :
  attempt W self p files = inr bytes -> is_Some (files !! realpath W p).
Proof.
  unfold attempt. destruct (files !! realpath W p); [eauto | discriminate].
Qed.

Lemma item_result_removed p bytes (st : state content) :
  attempt W self p (fs st) = inr bytes ->
  delete_original self = true ->
  can_remove W p = true ->
  item_result W self p st
  = add_signal (log_message (msg_success (output_filename p)))
      (add_signal (log_message (msg_removed (Path.basename p)))
         (set_fs (delete (realpath W p)
                    (<[realpath W (output_path self p) := bytes]> (fs st)))
            (set_successful (successful st + 1)
               (set_fs (<[realpath W (output_path self p) := bytes]> (fs st))
                  (add_signal (log_message (msg_converting (Path.basename p))) st))))).
Proof.
  intros H Hd Hrm. unfold item_result. rewrite H, Hd, Hrm. cbn zeta.
  cbn [fs set_successful set_fs add_signal].
  destruct (attempt_source p bytes _ H) as [c Hc].
  destruct (decide (realpath W (output_path self p) = realpath W p)) as [Heq|Hne].
  - rewrite Heq, lookup_insert_eq. reflexivity.
  - rewrite lookup_insert_ne, Hc by exact Hne. reflexivity.
Qed.

Lemma item_result_remove_failed p bytes (st : state content) :
  attempt W self p (fs st) = inr bytes ->
  delete_original self = true ->
  can_remove W p = false ->
  item_result W self p st
  = add_signal (log_message (msg_error (Path.basename p) DeleteError))
      (set_successful (successful st + 1)
         (set_fs (<[realpath W (output_path self p) := bytes]> (fs st))
            (add_signal (log_message (msg_converting (Path.basename p))) st))).
Proof.
  intros H Hd Hrm. unfold item_result. rewrite H, Hd, Hrm. cbn zeta.
  case_match; reflexivity.
Qed.

(** A failed attempt removes no file. *)
Lemma files_after_failure_keeps p (files : gmap string content) c :
  is_Some (files !! c) -> is_Some (files_after_failure W self p files !! c).
Proof.
  intros Hc. unfold files_after_failure. repeat case_match; try exact Hc.
  destruct (decide (realpath W (output_path self p) = c)) as [->|Hne].
  - rewrite lookup_insert_eq. eauto.
  - rewrite lookup_insert_ne by exact Hne. exact Hc.
Qed.

(** When no file is missing, undecodable or unwritable, a failed attempt
    is the encoder's. *)
Lemma attempt_failure_kinds p (files : gmap string content) e :
  attempt W self p files = inl e ->
  e = DecodeError \/ e = WriteError \/ e = EncodeError.
Proof.
  unfold attempt. repeat case_match; intros [= <-]; auto.
Qed.

Lemma item_result_starts p (st : state content) :
  exists more,
    signals (item_result W self p st)
    = signals st ++ log_message (msg_converting (Path.basename p)) :: more.
Proof.
  destruct (item_result_block W self p st) as (blk & Hblk & ->).
  destruct Hblk; eexists; reflexivity.
Qed.

(** Any property of the state kept by one iteration and by [stop] is
    kept by the loop. *)
Lemma for_loop_invariant (P : state content -> Prop) total i files st :
  total <> 0 ->
  (forall st, P st -> P (set_is_running false st)) ->
  (forall i p st, P st -> P (iteration_result W self total i p st)) ->
  P st -> P (snd (for_loop W self total i files st)).
Proof.
  intros Ht Hstop Hiter. revert i st.
  induction files as [|p rest IH]; intros i st HP; [exact HP|].
  destruct (stop_before W i) eqn:Hs.
  { rewrite for_loop_break by assumption. apply Hstop, HP. }
  destruct (is_running st) eqn:Hr.
  2:{ rewrite for_loop_idle by assumption. exact HP. }
  rewrite for_loop_run by assumption. apply IH, Hiter, HP.
Qed.

Lemma run_invariant (P : state content -> Prop) (st : state content) :
  (forall st, P st -> P (set_is_running false st)) ->
  (forall n st, P st -> P (set_successful n st)) ->
  (forall s st, P st -> P (add_signal s st)) ->
  (forall p st, P st -> P (item_result W self p st)) ->
  P st -> P (snd (run W self st)).
Proof.
  intros Hstop Hsucc Hsig Hitem HP. rewrite run_eq. cbn [snd].
  apply Hsig, Hsig.
  destruct (Nat.eq_dec (length (file_list self)) 0) as [H0|Ht].
  - apply nil_length_inv in H0. rewrite H0. apply Hsucc, HP.
  - apply for_loop_invariant; [exact Ht | exact Hstop | | apply Hsucc, HP].
    intros i p st0 H. apply Hsig, Hitem, H.
Qed.
End Isolation.

(** C4: when decoding, opening the output or encoding raises [e] for
    item [i] (any item, the last one included), the statements under the
    inner [try] raise [e] and the inner [try] itself returns.  The item
    gets its "converting" line, exactly one "error" line carrying [e] and
    its progress value; nothing is counted and no file is removed (the
    output stays opened when it is the encoder that raised).  The batch is
    not aborted: the loop goes on from there with the items after [i],
    [run] returns normally, and the run ends with [finished_signal(True)]
    and the summary.  When there is an item [i+1] and [stop] was not
    called, that item is converted like any other: an "error" line when
    its own attempt fails; otherwise its output is written and one more
    success counted, followed by its "success" line when the originals are
    kept, by the removal of its source, its "removed" line and its
    "success" line when they are not, and by an "error" line when that
    removal is refused. *)
Theorem failure_does_not_abort {content raster} (W : World content raster)
    (self : ConversionThread) (files : gmap string content)
    (i : nat) (p : string) (e : exn) :
  file_list self !! i = Some p ->
  (forall j, j <= i -> stop_before W j = false) ->
  let total := length (file_list self) in
  let before := snd (for_loop W self total 0 (take i (file_list self)) (initial files)) in
  attempt W self p (fs before) = inl e ->
  let after := snd (iteration W self total i p before) in
  let final := snd (for_loop W self total (S i) (drop (S i) (file_list self)) after) in
  (e = DecodeError \/ e = WriteError \/ e = EncodeError) /\
  fst (convert W self p before) = inl e /\
  fst (item W self p before) = inr tt /\
  signals after
  = signals before
    ++ [log_message (msg_converting (Path.basename p));
        log_message (msg_error (Path.basename p) e);
        progress (percent_val (i + 1) total)] /\
  successful after = successful before /\
  fs after = files_after_failure W self p (fs before) /\
  (forall c, is_Some (fs before !! c) -> is_Some (fs after !! c)) /\
  run W self (initial files)
  = (inr tt,
     add_signal (log_message (msg_done (successful final) total))
       (add_signal (finished_signal true) final)) /\
  (forall p',
     file_list self !! S i = Some p' ->
     stop_before W (S i) = false ->
     let next := snd (iteration W self total (S i) p' after) in
     final = snd (for_loop W self total (S (S i)) (drop (S (S i)) (file_list self)) next) /\
     (forall e',
        attempt W self p' (fs after) = inl e' ->
        signals next
        = signals after
          ++ [log_message (msg_converting (Path.basename p'));
              log_message (msg_error (Path.basename p') e');
              progress (percent_val (S i + 1) total)]) /\
     (forall bytes,
        attempt W self p' (fs after) = inr bytes ->
        delete_original self = false ->
        signals next
        = signals after
          ++ [log_message (msg_converting (Path.basename p'));
              log_message (msg_success (output_filename p'));
              progress (percent_val (S i + 1) total)] /\
        fs next = <[realpath W (output_path self p') := bytes]> (fs after) /\
        successful next = successful after + 1) /\
     (forall bytes,
        attempt W self p' (fs after) = inr bytes ->
        delete_original self = true ->
        can_remove W p' = true ->
        signals next
        = signals after
          ++ [log_message (msg_converting (Path.basename p'));
              log_message (msg_removed (Path.basename p'));
              log_message (msg_success (output_filename p'));
              progress (percent_val (S i + 1) total)] /\
        fs next
        = delete (realpath W p')
            (<[realpath W (output_path self p') := bytes]> (fs after)) /\
        successful next = successful after + 1) /\
     (forall bytes,
        attempt W self p' (fs after) = inr bytes ->
        delete_original self = true ->
        can_remove W p' = false ->
        signals next
        = signals after
          ++ [log_message (msg_converting (Path.basename p'));
              log_message (msg_error (Path.basename p') DeleteError);
              progress (percent_val (S i + 1) total)] /\
        fs next = <[realpath W (output_path self p') := bytes]> (fs after) /\
        successful next = successful after + 1)).
Proof.
  intros Hp Hnostop total before Hfail after final.
  assert (Hlt : i < total) by (apply lookup_lt_Some in Hp; exact Hp).
  assert (Ht : total <> 0) by lia.
  assert (Hsplit : file_list self = take i (file_list self) ++ p :: drop (S i) (file_list self)).
  { rewrite <- (take_drop i (file_list self)) at 1. f_equal. apply (drop_S _ p i Hp). }
  assert (Hlen : length (take i (file_list self)) = i) by (rewrite length_take; lia).
  assert (Hrun : is_running before = true).
  { apply for_loop_running; [exact Ht | reflexivity |].
    intros j Hj. apply Hnostop. lia. }
  assert (Hafter : after = iteration_result W self total i p before).
  { unfold after. rewrite iteration_eq by exact Ht. reflexivity. }
  assert (Hafter' : after
            = add_signal (progress (percent_val (i + 1) total))
                (add_signal (log_message (msg_error (Path.basename p) e))
                   (set_fs (files_after_failure W self p (fs before))
                      (add_signal (log_message (msg_converting (Path.basename p)))
                         before)))).
  { rewrite Hafter. unfold iteration_result.
    rewrite (item_result_failed W self p e before Hfail). reflexivity. }
  assert (Hloop : snd (for_loop W self total 0 (file_list self) (initial files)) = final).
  { unfold final.
    replace (for_loop W self total 0 (file_list self) (initial files))
      with (for_loop W self total 0
              (take i (file_list self) ++ p :: drop (S i) (file_list self))
              (initial files)) by (rewrite <- Hsplit; reflexivity).
    rewrite for_loop_app by exact Ht. fold before. rewrite Hlen. cbn [Nat.add].
    rewrite for_loop_run; [| exact Ht | exact Hrun | apply Hnostop; lia].
    rewrite <- Hafter. reflexivity. }
  split; [exact (attempt_failure_kinds W self p _ e Hfail)|].
  split; [exact (convert_raises W self p e before Hfail)|].
  split; [rewrite item_eq; reflexivity|].
  split; [rewrite Hafter'; cbn; rewrite <- !app_assoc; reflexivity|].
  split; [rewrite Hafter'; reflexivity|].
  split; [rewrite Hafter'; reflexivity|].
  split; [intros c Hc; rewrite Hafter'; cbn; apply files_after_failure_keeps, Hc|].
  split.
  { rewrite run_eq. cbv zeta. fold total.
    change (set_successful 0 (initial files)) with (initial files).
    rewrite Hloop. reflexivity. }
  intros p' Hp' Hs next.
  assert (Hrun' : is_running after = true).
  { rewrite Hafter, iteration_result_running. exact Hrun. }
  assert (Hnext : next = iteration_result W self total (S i) p' after).
  { unfold next. rewrite iteration_eq by exact Ht. reflexivity. }
  split.
  { unfold final. rewrite (drop_S _ p' (S i) Hp').
    rewrite for_loop_run by assumption. rewrite <- Hnext. reflexivity. }
  split; [|split; [|split]].
  - intros e' He'. rewrite Hnext. unfold iteration_result.
    rewrite (item_result_failed W self p' e' after He'). cbn.
    rewrite <- !app_assoc. reflexivity.
  - intros bytes Hb Hd. rewrite Hnext. unfold iteration_result.
    rewrite (item_result_converted W self p' bytes after Hb Hd). cbn.
    rewrite <- !app_assoc. repeat split; reflexivity.
  - intros bytes Hb Hd Hrm. rewrite Hnext. unfold iteration_result.
    rewrite (item_result_removed W self p' bytes after Hb Hd Hrm). cbn.
    rewrite <- !app_assoc. repeat split; reflexivity.
  - intros bytes Hb Hd Hrm. rewrite Hnext. unfold iteration_result.
    rewrite (item_result_remove_failed W self p' bytes after Hb Hd Hrm). cbn.
    rewrite <- !app_assoc. repeat split; reflexivity.
Qed.

(** C4 on a batch of one file that cannot be decoded, and on the item
    that follows an undecodable one. *)
Lemma failure_does_not_abort_witness :
  let W := toy_world [] [] [] in
  trace W (ConversionThread_init ["/a/x.orf"%string] "/out" 90 false)
    {["/a/x.orf"%string := "corrupt"%string]}
  = [log_message (msg_converting "x.orf");
     log_message (msg_error "x.orf" DecodeError);
     progress 100; finished_signal true; log_message (msg_done 0 1)] /\
  let th := ConversionThread_init two_files "/out" 90 false in
  let after := snd (iteration W th 2 0 "/a/x.orf" (initial corrupt_first)) in
  fs (snd (iteration W th 2 1 "/b/y.orf" after))
  = <["/out/y.jpg"%string := "jpg:Y"%string]> (fs after).
Proof.
  intros W. split.
  - pose proof (failure_does_not_abort W
                  (ConversionThread_init ["/a/x.orf"%string] "/out" 90 false)
                  {["/a/x.orf"%string := "corrupt"%string]} 0 "/a/x.orf" DecodeError)
      as H.
    cbv zeta in H.
    destruct H as (_ & _ & _ & _ & _ & _ & _ & Hrun & _);
      [reflexivity | intros j _; reflexivity | vm_compute; reflexivity |].
    unfold trace. rewrite Hrun. vm_compute. reflexivity.
  - intros th after.
    pose proof (failure_does_not_abort W th corrupt_first 0 "/a/x.orf" DecodeError) as H.
    cbv zeta in H.
    destruct H as (_ & _ & _ & _ & _ & _ & _ & _ & Hnext);
      [reflexivity | intros j _; reflexivity | vm_compute; reflexivity |].
    destruct (Hnext "/b/y.orf"%string) as (_ & _ & Hok);
      [reflexivity | reflexivity |].
    destruct Hok as (Hok & _).
    destruct (Hok "jpg:Y"%string) as (_ & Hfs & _);
      [vm_compute; reflexivity | reflexivity |].
    exact Hfs.
Defined.

(** ** Files written and removed *)

Section Files.
Context {content raster : Type} (W : World content raster).
Variable self : ConversionThread.

(** The files after one item, by what [attempt] gives. *)
Lemma item_result_fs p (st : state content) :
  fs (item_result W self p st)
  = match attempt W self p (fs st) with
    | inl _ => files_after_failure W self p (fs st)
    | inr bytes =>
        let written := <[realpath W (output_path self p) := bytes]> (fs st) in
        if delete_original self && bool_decide (is_Some (written !! realpath W p))
           && can_remove W p
        then delete (realpath W p) written else written
    end.
Proof.
  unfold item_result. destruct (attempt W self p (fs st)) as [e|bytes]; [reflexivity|].
  cbn zeta. destruct (delete_original self); [|reflexivity].
  cbn [fs set_successful set_fs add_signal andb].
  destruct (<[realpath W (output_path self p):=bytes]> (fs st) !! realpath W p)
    as [c|] eqn:E.
  - rewrite bool_decide_eq_true_2 by eauto.
    destruct (can_remove W p); reflexivity.
  - rewrite bool_decide_eq_false_2 by (intros [? ?]; discriminate). reflexivity.
Qed.

(** A failed attempt changes at most the file its output path names. *)
Lemma files_after_failure_frame p (files : gmap string content) c :
  realpath W (output_path self p) <> c ->
  files_after_failure W self p files !! c = files !! c.
Proof.
  intros Hne. unfold files_after_failure. repeat case_match; try reflexivity.
  apply lookup_insert_ne, Hne.
Qed.

Lemma item_result_keeps p (st : state content) c :
  delete_original self = false ->
  is_Some (fs st !! c) -> is_Some (fs (item_result W self p st) !! c).
Proof.
  intros Hd Hc. rewrite item_result_fs.
  destruct (attempt W self p (fs st)) as [e|bytes];
    [apply files_after_failure_keeps, Hc|].
  cbn zeta. rewrite Hd. cbn [andb].
  destruct (decide (realpath W (output_path self p) = c)) as [->|Hne].
  - rewrite lookup_insert_eq. eauto.
  - rewrite lookup_insert_ne by exact Hne. exact Hc.
Qed.
End Files.

(** C7: for any item, in any state.  If decoding, opening the output or
    encoding fails, no file is removed: every file there before the item
    is there after it, and all keep their content except, when it is the
    encoder that failed, the output that was opened.  If the source is
    there before the item and gone after it, then [delete_original] is
    set, the removal was permitted, the output was written, and the files
    are those obtained by writing the output first and removing the source
    second: what [os.remove] leaves when it is called with the output
    already written.  And with [delete_original] unset, every file present when a
    run starts is present when it ends, whatever the interface does to
    the list meanwhile. *)
Theorem source_removed_only_after_write {content raster} (W : World content raster)
    (self : ConversionThread) (p : string) (st : state content) :
  let st' := snd (item W self p st) in
  (forall e, attempt W self p (fs st) = inl e ->
     fs st' = files_after_failure W self p (fs st) /\
     (forall c, is_Some (fs st !! c) -> is_Some (fs st' !! c)) /\
     (forall c, realpath W (output_path self p) <> c -> fs st' !! c = fs st !! c) /\
     (e <> EncodeError -> fs st' = fs st)) /\
  (is_Some (fs st !! realpath W p) -> fs st' !! realpath W p = None ->
   delete_original self = true /\
   can_remove W p = true /\
   exists bytes,
     attempt W self p (fs st) = inr bytes /\
     let written := <[realpath W (output_path self p) := bytes]> (fs st) in
     fs st' = delete (realpath W p) written /\
     fs st' = fs (snd (os_remove W p (set_fs written st)))) /\
  (delete_original self = false ->
   forall files c,
     is_Some (files !! c) ->
     is_Some (fs (snd (run W self (initial files))) !! c) /\
     is_Some (fs (snd (live_run W self (initial files))) !! c)).
Proof.
  cbv zeta. rewrite item_eq. cbn [snd]. rewrite item_result_fs.
  split; [|split].
  - intros e He. rewrite He. split; [reflexivity|]. split; [|split].
    + intros c. apply files_after_failure_keeps.
    + intros c. apply files_after_failure_frame.
    + intros Hne. revert He Hne. unfold attempt, files_after_failure.
      repeat case_match; intros [= <-] Hne; try reflexivity. contradiction.
  - intros Hsrc Hgone.
    destruct (attempt W self p (fs st)) as [e|bytes].
    { apply (files_after_failure_keeps W self p) in Hsrc.
      rewrite Hgone in Hsrc. destruct Hsrc; discriminate. }
    cbn zeta in *.
    destruct (delete_original self
              && bool_decide (is_Some (<[realpath W (output_path self p):=bytes]> (fs st)
                                         !! realpath W p))
              && can_remove W p) eqn:E.
    + apply andb_prop in E as [E Hrm]. apply andb_prop in E as [E Hin].
      apply bool_decide_eq_true_1 in Hin. destruct Hin as [c Hc].
      split; [exact E | split; [exact Hrm | exists bytes]].
      split; [reflexivity|]. cbv zeta. split; [reflexivity|].
      unfold os_remove. cbn [fs set_fs]. rewrite Hc, Hrm. reflexivity.
    + exfalso.
      destruct (decide (realpath W (output_path self p) = realpath W p)) as [Heq|Hne].
      * rewrite Heq, lookup_insert_eq in Hgone. discriminate.
      * rewrite lookup_insert_ne in Hgone by exact Hne.
        rewrite Hgone in Hsrc. destruct Hsrc; discriminate.
  - intros Hd files c Hc. split.
    + apply (run_invariant W self (fun s => is_Some (fs s !! c)));
        try (intros; assumption).
      intros q s Hs. apply item_result_keeps; assumption.
    + apply (live_run_invariant W self (fun s => is_Some (fs s !! c)));
        try (intros; assumption).
      intros q s Hs. apply item_result_keeps; assumption.
Qed.

(** C7 on one convertible source with [delete_original] set. *)
Lemma source_removed_only_after_write_witness :
  let W := toy_world [] [] [] in
  let th := ConversionThread_init ["/a/x.orf"%string] "/out" 90 true in
  let st' := snd (item W th "/a/x.orf" (initial one_source)) in
  is_Some (one_source !! "/a/x.orf"%string) /\
  fs st' !! "/a/x.orf"%string = None /\
  (delete_original th = true /\
   can_remove W "/a/x.orf" = true /\
   exists bytes,
     attempt W th "/a/x.orf" one_source = inr bytes /\
     fs st' = delete "/a/x.orf"%string (<[output_path th "/a/x.orf" := bytes]> one_source)
     /\ fs st' = fs (snd (os_remove W "/a/x.orf"
                            (set_fs (<[output_path th "/a/x.orf" := bytes]> one_source)
                               (initial one_source))))).
Proof.
  intros W th st'.
  assert (H1 : is_Some (one_source !! "/a/x.orf"%string)) by (vm_compute; eauto).
  assert (H2 : fs st' !! "/a/x.orf"%string = None) by (vm_compute; reflexivity).
  split; [exact H1 | split; [exact H2 |]].
  exact (proj1 (proj2 (source_removed_only_after_write W th "/a/x.orf" (initial one_source)))
           H1 H2).
Defined.

(** ** Output names *)

Module PathFacts.
Import Path.

Lemma eqc_refl c : eqc c c = true.
Proof. unfold eqc. apply bool_decide_eq_true_2. reflexivity. Qed.

Lemma append_nil (s : string) : EmptyString +:+ s = s.
Proof. reflexivity. Qed.

Lemma append_cons x (a b : string) : String x a +:+ b = String x (a +:+ b).
Proof. reflexivity. Qed.

Lemma length_app (a b : string) :
  String.length (a +:+ b) = String.length a + String.length b.
Proof.
  induction a as [|x a IH]; [reflexivity|].
  rewrite append_cons. cbn. rewrite IH. reflexivity.
Qed.

Lemma has_app c (a b : string) : has c (a +:+ b) = has c a || has c b.
Proof.
  induction a as [|x a IH]; [reflexivity|].
  rewrite append_cons. cbn. rewrite IH. destruct (eqc x c); reflexivity.
Qed.

Lemma take_app (a b : string) : take (String.length a) (a +:+ b) = a.
Proof.
  induction a as [|x a IH]; [destruct b; reflexivity|].
  rewrite append_cons. cbn. rewrite IH. reflexivity.
Qed.

Lemma rfind_absent c s : has c s = false -> rfind c s = (-1)%Z.
Proof.
  induction s as [|x s IH]; cbn; [reflexivity|].
  intros H. apply orb_false_iff in H as [Hx Hs].
  rewrite (IH Hs), Hx. reflexivity.
Qed.

Lemma rfind_last c (b e : string) :
  has c e = false -> rfind c (b +:+ String c e) = Z.of_nat (String.length b).
Proof.
  intros He. induction b as [|x b IH].
  - rewrite append_nil. cbn. rewrite (rfind_absent c e He), eqc_refl. reflexivity.
  - rewrite append_cons. cbn -[Z.of_nat]. rewrite IH. destruct (Z.leb_spec 0 (Z.of_nat (String.length b))); lia.
Qed.

Lemma split_not_nil c s : split c s <> [].
Proof.
  destruct s as [|x s]; cbn; [discriminate|].
  destruct (eqc x c); [discriminate|]. destruct (split c s); discriminate.
Qed.

Lemma split_absent c s : has c s = false -> split c s = [s].
Proof.
  induction s as [|x s IH]; cbn; [reflexivity|].
  intros H. apply orb_false_iff in H as [Hx Hs].
  rewrite Hx, (IH Hs). reflexivity.
Qed.

Lemma split_app c (a b : string) :
  split c (a +:+ String c b) = split c a ++ split c b.
Proof.
  induction a as [|x a IH].
  - rewrite append_nil. cbn. rewrite eqc_refl. reflexivity.
  - rewrite append_cons. cbn. rewrite IH. destruct (eqc x c); [reflexivity|].
    pose proof (split_not_nil c a). destruct (split c a); [contradiction | reflexivity].
Qed.

(** The name of a path is what follows its last separator, when that
    is a component pathlib keeps. *)
Lemma name_last_component (pre nm : string) :
  pre = EmptyString \/ (exists d, pre = d +:+ "/") ->
  has sep nm = false -> kept nm = true ->
  name (pre +:+ nm) = nm.
Proof.
  intros Hpre Hsep Hkept. unfold name.
  destruct Hpre as [->|[d ->]].
  - rewrite append_nil, (split_absent _ _ Hsep). cbn. rewrite Hkept. reflexivity.
  - replace ((d +:+ "/") +:+ nm) with (d +:+ String sep nm).
    2:{ clear. induction d as [|x d IH]; [reflexivity|].
        rewrite !append_cons, IH. reflexivity. }
    rewrite split_app, (split_absent _ _ Hsep), List.filter_app. cbn [List.filter].
    rewrite Hkept. apply List.last_last.
Qed.

Lemma stem_drops_extension (pre b e : string) :
  pre = EmptyString \/ (exists d, pre = d +:+ "/") ->
  b <> EmptyString -> e <> EmptyString ->
  has sep b = false -> has sep e = false -> has dot e = false ->
  stem (pre +:+ (b +:+ String dot e)) = b.
Proof.
  intros Hpre Hb He Hsb Hse Hde.
  assert (Hlb : 0 < String.length b) by (destruct b; [contradiction | cbn; lia]).
  assert (Hle : 0 < String.length e) by (destruct e; [contradiction | cbn; lia]).
  unfold stem. rewrite name_last_component.
  - rewrite (rfind_last dot b e Hde), length_app. cbn [String.length].
    destruct (Z.ltb_spec 0 (Z.of_nat (String.length b))); [|lia].
    destruct (Z.ltb_spec (Z.of_nat (String.length b))
                (Z.of_nat (String.length b + S (String.length e)) - 1)); [|lia].
    cbn [andb]. rewrite Nat2Z.id. apply take_app.
  - exact Hpre.
  - rewrite has_app. cbn [has]. rewrite Hsb, Hse. reflexivity.
  - unfold kept. destruct b as [|x b]; [contradiction|].
    rewrite append_cons. cbn [is_empty negb andb].
    apply negb_true_iff, bool_decide_eq_false_2.
    intros H. injection H as _ H. destruct b; discriminate.
Qed.
Lemma rfind_bound c s : (-1 <= rfind c s < Z.of_nat (String.length s))%Z.
Proof.
  induction s as [|x s IH]; cbn -[Z.of_nat]; [lia|].
  destruct (Z.leb_spec 0 (rfind c s)); [lia|].
  destruct (eqc x c); lia.
Qed.

(** A name with a dot splits at its last dot. *)
Lemma last_dot c (s : string) :
  has c s = true -> exists b e, s = b +:+ String c e /\ has c e = false.
Proof.
  induction s as [|x s IH]; cbn; [discriminate|].
  destruct (has c s) eqn:Hs.
  - intros _. destruct (IH eq_refl) as (b & e & -> & He).
    exists (String x b), e. split; [reflexivity | exact He].
  - rewrite orb_false_r. intros Hx. unfold eqc in Hx.
    apply bool_decide_eq_true_1 in Hx. subst x.
    exists EmptyString, s. split; [reflexivity | exact Hs].
Qed.

Lemma is_empty_length (s : string) : is_empty s = (String.length s =? 0).
Proof. destruct s; reflexivity. Qed.

(** [stem] by the shape of the name: the name itself when it has no dot
    or when its only candidate suffix is empty or starts the name, and
    what comes before the last dot otherwise. *)
Lemma stem_no_dot p : has dot (name p) = false -> stem p = name p.
Proof. intros H. unfold stem. rewrite (rfind_absent _ _ H). reflexivity. Qed.

Lemma stem_last_dot p (b e : string) :
  name p = b +:+ String dot e -> has dot e = false ->
  stem p = if is_empty b || is_empty e then name p else b.
Proof.
  intros Hnm He. unfold stem. rewrite Hnm, (rfind_last dot b e He), length_app.
  cbn [String.length]. rewrite !is_empty_length.
  destruct (String.length b) as [|n] eqn:Hb.
  - cbn. reflexivity.
  - destruct (String.length e) as [|m] eqn:Hle.
    + cbn [Nat.eqb orb].
      destruct (Z.ltb_spec (Z.of_nat (S n)) (Z.of_nat (S n + 1) - 1)); [lia|].
      rewrite andb_false_r. reflexivity.
    + cbn [Nat.eqb orb].
      destruct (Z.ltb_spec 0 (Z.of_nat (S n))); [|lia].
      destruct (Z.ltb_spec (Z.of_nat (S n)) (Z.of_nat (S n + S (S m)) - 1)); [|lia].
      cbn [andb]. rewrite Nat2Z.id, <- Hb. apply take_app.
Qed.

Lemma drop_length_app (a b : string) : drop (String.length a) (a +:+ b) = b.
Proof.
  induction a as [|x a IH]; [destruct b; reflexivity|].
  rewrite append_cons. cbn. exact IH.
Qed.

Lemma append_assoc (a b c : string) : (a +:+ b) +:+ c = a +:+ (b +:+ c).
Proof.
  induction a as [|x a IH]; [reflexivity|].
  rewrite !append_cons, IH. reflexivity.
Qed.

(** [os.path.basename] gives what follows the last separator. *)
Lemma basename_last_component (pre nm : string) :
  pre = EmptyString \/ (exists d, pre = d +:+ "/") ->
  has sep nm = false ->
  basename (pre +:+ nm) = nm.
Proof.
  intros Hpre Hsep. unfold basename. destruct Hpre as [->|[d ->]].
  - rewrite append_nil, (rfind_absent _ _ Hsep). reflexivity.
  - rewrite append_assoc. change ("/" +:+ nm) with (String sep nm).
    rewrite (rfind_last sep d nm Hsep).
    replace (Z.to_nat (Z.of_nat (String.length d) + 1))
      with (String.length (d +:+ "/")) by (rewrite length_app; cbn; lia).
    rewrite <- (drop_length_app (d +:+ "/") nm) at 2.
    rewrite append_assoc. reflexivity.
Qed.
End PathFacts.

Section Written.
Context {content raster : Type} (W : World content raster).
Variable self : ConversionThread.

(** The bytes of a successful attempt are the source decoded and then
    encoded at the quality of the thread. *)
Lemma attempt_bytes p (files : gmap string content) bytes :
  attempt W self p files = inr bytes ->
  exists raw rgb,
    files !! realpath W p = Some raw /\
    postprocess W raw = Some rgb /\
    can_write W (output_path self p) = true /\
    jpeg_encode W rgb (quality self) = Some bytes.
Proof.
  unfold attempt.
  destruct (files !! realpath W p) as [raw|]; [|discriminate].
  destruct (postprocess W raw) as [rgb|] eqn:Hp; [|discriminate].
  destruct (can_write W (output_path self p)) eqn:Hw; [|discriminate].
  destruct (jpeg_encode W rgb (quality self)) as [b|] eqn:Hb; [|discriminate].
  intros [= <-]. exists raw, rgb. repeat split; assumption.
Qed.

Lemma item_result_written p (st : state content) bytes :
  attempt W self p (fs st) = inr bytes ->
  delete_original self = false
  \/ realpath W (output_path self p) <> realpath W p
  \/ can_remove W p = false ->
  fs (item_result W self p st) !! realpath W (output_path self p) = Some bytes.
Proof.
  intros Hat Hcase. rewrite item_result_fs, Hat. cbn zeta.
  destruct (delete_original self && _ && can_remove W p) eqn:E.
  - apply andb_prop in E as [E Hrm]. apply andb_prop in E as [Hd _].
    destruct Hcase as [H|[Hne|H]].
    + rewrite H in Hd. discriminate.
    + rewrite lookup_delete_ne by (intros H; apply Hne; symmetry; exact H).
      apply lookup_insert_eq.
    + rewrite H in Hrm. discriminate.
  - apply lookup_insert_eq.
Qed.

Lemma item_result_unlinked p (st : state content) bytes :
  attempt W self p (fs st) = inr bytes ->
  delete_original self = true ->
  realpath W (output_path self p) = realpath W p ->
  can_remove W p = true ->
  fs (item_result W self p st) = delete (realpath W p) (fs st).
Proof.
  intros Hat Hd Heq Hrm. rewrite item_result_fs, Hat. cbn zeta.
  rewrite Hd, Hrm, Heq, lookup_insert_eq.
  rewrite bool_decide_eq_true_2 by eauto. cbn [andb].
  apply delete_insert_eq.
Qed.

Lemma item_result_success p (st : state content) bytes :
  attempt W self p (fs st) = inr bytes ->
  delete_original self = false ->
  signals (item_result W self p st)
  = signals st ++ [log_message (msg_converting (Path.basename p));
                   log_message (msg_success (output_filename p))].
Proof.
  intros Hat Hd. unfold item_result. rewrite Hat, Hd. cbn.
  rewrite <- app_assoc. reflexivity.
Qed.
End Written.

(** C9.  Naming: the output is named after [Path(file_path).name] (for a
    path that ends with a file name, what [os.path.basename] gives): the
    name itself followed by [.jpg] when it has no dot, and otherwise, the
    name being [b.e] with no dot in [e], [b.jpg], except that a name
    starting with its only dot or ending with a dot is kept whole.
    Writing: a converted item leaves the bytes of its source, decoded and
    encoded at the quality of the thread, in the file that
    [join(output_dir, stem + ".jpg")] names, unless that file is the
    source itself and the source is removed, in which case neither is
    left.  Collisions: when two sources with the same stem are converted
    one after the other, both go to the same path, the second replaces
    what the first wrote, and it is reported as a success. *)
Theorem output_name_and_overwrite {content raster} (W : World content raster)
    (self : ConversionThread) :
  (forall p,
     let nm := Path.name p in
     (Path.has Path.dot nm = false \/
      exists b e, nm = b +:+ String Path.dot e /\ Path.has Path.dot e = false) /\
     (Path.has Path.dot nm = false -> output_filename p = nm +:+ ".jpg") /\
     (forall b e,
        nm = b +:+ String Path.dot e -> Path.has Path.dot e = false ->
        output_filename p
        = if Path.is_empty b || Path.is_empty e
          then nm +:+ ".jpg" else b +:+ ".jpg")) /\
  (forall pre nm : string,
     pre = EmptyString \/ (exists d, pre = d +:+ "/") ->
     Path.has Path.sep nm = false -> Path.kept nm = true ->
     Path.name (pre +:+ nm) = nm /\ Path.basename (pre +:+ nm) = nm) /\
  (forall p (st : state content) bytes,
     attempt W self p (fs st) = inr bytes ->
     let out := Path.join (output_dir self) (Path.stem p +:+ ".jpg") in
     let st' := snd (item W self p st) in
     output_path self p = out /\
     (exists raw rgb,
        fs st !! realpath W p = Some raw /\
        postprocess W raw = Some rgb /\
        can_write W out = true /\
        jpeg_encode W rgb (quality self) = Some bytes) /\
     (delete_original self = false
      \/ realpath W out <> realpath W p
      \/ can_remove W p = false ->
      fs st' !! realpath W out = Some bytes) /\
     (delete_original self = true ->
      realpath W out = realpath W p ->
      can_remove W p = true ->
      fs st' = delete (realpath W p) (fs st))) /\
  (forall p1 p2 (st : state content) bytes1 bytes2,
     Path.stem p1 = Path.stem p2 ->
     delete_original self = false ->
     attempt W self p1 (fs st) = inr bytes1 ->
     let st1 := snd (item W self p1 st) in
     attempt W self p2 (fs st1) = inr bytes2 ->
     let st2 := snd (item W self p2 st1) in
     output_path self p2 = output_path self p1 /\
     fs st1 !! realpath W (output_path self p1) = Some bytes1 /\
     fs st2 !! realpath W (output_path self p1) = Some bytes2 /\
     signals st2
     = signals st1 ++ [log_message (msg_converting (Path.basename p2));
                       log_message (msg_success (output_filename p2))]).
Proof.
  split; [|split; [|split]].
  - intros p nm. split; [|split].
    + destruct (Path.has Path.dot nm) eqn:Hd; [right | left; reflexivity].
      apply PathFacts.last_dot, Hd.
    + intros Hd. unfold output_filename. rewrite (PathFacts.stem_no_dot p Hd).
      reflexivity.
    + intros b e Hnm He. unfold output_filename.
      rewrite (PathFacts.stem_last_dot p b e Hnm He).
      destruct (Path.is_empty b || Path.is_empty e); reflexivity.
  - intros pre nm Hpre Hsep Hkept. split.
    + apply PathFacts.name_last_component; assumption.
    + apply PathFacts.basename_last_component; assumption.
  - intros p st bytes Hat out st'. subst out st'. rewrite item_eq. cbn [snd].
    split; [reflexivity | split; [|split]].
    + apply (attempt_bytes W self p _ bytes Hat).
    + apply (item_result_written W self p st bytes Hat).
    + apply (item_result_unlinked W self p st bytes Hat).
  - intros p1 p2 st bytes1 bytes2 Hstem Hd Hat1 st1 Hat2 st2.
    assert (Hout : output_path self p2 = output_path self p1).
    { unfold output_path, output_filename. rewrite Hstem. reflexivity. }
    subst st2 st1. rewrite !item_eq in *. cbn [snd] in *.
    split; [exact Hout | split; [|split]].
    + apply item_result_written; [exact Hat1 | left; exact Hd].
    + rewrite <- Hout. apply item_result_written; [exact Hat2 | left; exact Hd].
    + apply (item_result_success W self p2 _ bytes2 Hat2 Hd).
Qed.

(** C9 on [/a/x.orf] and [/b/x.orf] converted into [/out], and on
    [/out/x.jpg] converted into [/out/.] with [delete_original] set. *)
Lemma output_name_and_overwrite_witness :
  let W := toy_world [] [] [] in
  let th := ConversionThread_init ["/a/x.orf"; "/b/x.orf"]%string "/out" 90 false in
  let th' := ConversionThread_init ["/out/x.jpg"%string] "/out/." 90 true in
  let files : gmap string string := {["/out/x.jpg"%string := "X"%string]} in
  output_filename "/a/x.orf" = "x.jpg"%string /\
  fs (snd (item W th "/b/x.orf" (snd (item W th "/a/x.orf" (initial same_stem_sources)))))
    !! "/out/x.jpg"%string = Some "jpg:second"%string /\
  output_path th' "/out/x.jpg" = "/out/./x.jpg"%string /\
  fs (snd (item dotted_world th' "/out/x.jpg" (initial files))) = ∅.
Proof.
  intros W th th' files.
  destruct (output_name_and_overwrite W th) as (Hname & _ & _ & Hover).
  destruct (output_name_and_overwrite dotted_world th') as (_ & _ & Hwrite & _).
  split; [|split; [|split]].
  - destruct (Hname "/a/x.orf"%string) as (_ & _ & Hsplit).
    apply (Hsplit "x"%string "orf"%string); reflexivity.
  - refine (proj1 (proj2 (proj2 (Hover "/a/x.orf"%string "/b/x.orf"%string
                                   (initial same_stem_sources)
                                   "jpg:first"%string "jpg:second"%string _ _ _ _))));
      vm_compute; reflexivity.
  - reflexivity.
  - destruct (Hwrite "/out/x.jpg"%string (initial files) "jpg:X"%string)
      as (_ & _ & _ & Hgone); [vm_compute; reflexivity|].
    rewrite Hgone by (vm_compute; reflexivity). vm_compute. reflexivity.
Defined.

(** ** The launcher *)

Section Launcher.
(** The quality spin box never leaves the range [init_ui] gives it. *)
Lemma reachable_quality app :
  reachable app ->
  minimum (quality_spinbox app) = 1%Z /\
  maximum (quality_spinbox app) = 100%Z /\
  (1 <= value (quality_spinbox app) <= 100)%Z.
Proof.
  induction 1 as [| files app _ IH | folder files app _ IH | folder app _ IH
                  | app _ IH | v app _ IH | b app _ IH].
  - vm_compute. repeat split; discriminate.
  - destruct files; exact IH.
  - unfold add_folder. destruct (Path.is_empty folder); [exact IH|].
    destruct files; exact IH.
  - unfold choose_output_folder. destruct (Path.is_empty folder); exact IH.
  - exact IH.
  - destruct IH as (Hlo & Hhi & _). cbn. rewrite Hlo, Hhi. unfold bound. lia.
  - exact IH.
Qed.
End Launcher.

(** C6, as stated, fails: threads built with quality 0, with quality
    101 and with an empty list are built and run, and each run emits
    signals. *)
Lemma constructor_validates_nothing_counterexample :
  let W := toy_world [] [] [] in
  trace W (ConversionThread_init ["/a/x.orf"%string] "/out" 0 false) one_source
  = [log_message (msg_converting "x.orf"); log_message (msg_success "x.jpg");
     progress 100; finished_signal true; log_message (msg_done 1 1)] /\
  trace W (ConversionThread_init ["/a/x.orf"%string] "/out" 101 false) one_source <> [] /\
  trace W (ConversionThread_init [] "/out" 95 false) one_source
  = [finished_signal true; log_message (msg_done 0 0)].
Proof. vm_compute. repeat split. discriminate. Qed.

(** C6, amended: in every window the user can bring about,
    [start_conversion] builds no thread when the file list is empty, and
    every thread it builds has a non-empty file list and a quality between
    1 and 100 (the range of the spin box). *)
Theorem start_conversion_validates {content raster} (W : World content raster)
    (app : ORFConverterApp) :
  reachable app ->
  (app_file_list app = [] -> start_conversion W app = inr None) /\
  (forall th, start_conversion W app = inr (Some th) ->
              file_list th <> [] /\ (1 <= quality th <= 100)%Z).
Proof.
  intros Hreach. destruct (reachable_quality app Hreach) as (_ & _ & Hq).
  unfold start_conversion. split.
  - intros ->. reflexivity.
  - intros th. destruct (app_file_list app) as [|first rest] eqn:Hfl; [discriminate|].
    destruct (chosen (output_folder app)) as [d|].
    + destruct (can_makedirs W d); [|discriminate].
      intros [= <-]. cbn. split; [discriminate | exact Hq].
    + intros [= <-]. cbn. split; [discriminate | exact Hq].
Qed.

(** C6, amended, on a window where the user typed quality 0. *)
Lemma start_conversion_validates_witness :
  let W := toy_world [] [] [] in
  let app := edit_quality 0 (add_files ["/a/x.orf"%string] init_ui) in
  reachable app /\
  start_conversion W (clear_list app) = inr None /\
  exists th, start_conversion W app = inr (Some th) /\ quality th = 1%Z.
Proof.
  intros W app.
  assert (Hr : reachable app) by (apply reach_edit_quality, reach_add_files, reach_init).
  split; [exact Hr | split].
  - apply (proj1 (start_conversion_validates W (clear_list app) (reach_clear_list _ Hr))).
    reflexivity.
  - eexists. split; reflexivity.
Defined.

(** C2, evaluated where it fails: with [/a/x.orf] and [/b/y.orf] listed
    and no output folder chosen, the thread is built with the folder of the
    first file, and the output of [/b/y.orf] is written to [/a/y.jpg], not
    into [/b]. *)
Theorem source_relative_uses_first_folder :
  let W := toy_world [] [] [] in
  let app := add_files two_files init_ui in
  output_folder app = None /\
  exists th,
    start_conversion W app = inr (Some th) /\
    output_dir th = "/a"%string /\
    Path.dirname "/b/y.orf" = "/b"%string /\
    let final := fs (snd (run W th (initial two_sources))) in
    final !! "/a/x.jpg"%string = Some "jpg:X"%string /\
    final !! "/a/y.jpg"%string = Some "jpg:Y"%string /\
    final !! "/b/y.jpg"%string = None.
Proof.
  cbv zeta. split; [reflexivity|]. eexists. split; [reflexivity|].
  vm_compute. repeat split.
Qed.

(** C8, evaluated where it fails: the output of [/a/x.orf] is written,
    removing the source is refused, and the run emits the "error" line for
    the item and no "success" line, while the summary counts one
    success. *)
Theorem failed_removal_reported_as_error :
  let W := toy_world [] ["/a/x.orf"%string] [] in
  let th := ConversionThread_init ["/a/x.orf"%string] "/out" 90 true in
  let final := snd (run W th (initial one_source)) in
  attempt W th "/a/x.orf" one_source = inr "jpg:X"%string /\
  fs final !! "/out/x.jpg"%string = Some "jpg:X"%string /\
  fs final !! "/a/x.orf"%string = Some "X"%string /\
  signals final
  = [log_message (msg_converting "x.orf");
     log_message (msg_error "x.orf" DeleteError);
     progress 100; finished_signal true; log_message (msg_done 1 1)] /\
  count is_succeeded (signals final) = 0 /\
  count is_failed (signals final) = 1.
Proof. vm_compute. repeat split. Qed.

(** ** The success count *)

Section SuccessCount.
Context {content raster : Type} (W : World content raster).
Variable self : ConversionThread.

Lemma attempt_not_delete p (files : gmap string content) e :
  attempt W self p files = inl e -> e <> DeleteError.
Proof.
  unfold attempt. repeat case_match; intros [= <-]; discriminate.
Qed.

Lemma written_app (a b : list signal) : written (a ++ b) = written a + written b.
Proof. unfold written. rewrite !count_app. lia. Qed.

(** One item adds to [successful] what its signals show as written. *)
Lemma item_result_counts p (st : state content) :
  exists blk,
    signals (item_result W self p st) = signals st ++ blk /\
    successful (item_result W self p st) = successful st + written blk /\
    (delete_original self = false -> count is_remove_failed blk = 0).
Proof.
  unfold item_result.
  destruct (attempt W self p (fs st)) as [e|bytes] eqn:Hat.
  - eexists. cbn. rewrite <- app_assoc. split; [reflexivity|].
    pose proof (attempt_not_delete _ _ _ Hat).
    destruct e; try contradiction; cbn; split; (lia || reflexivity).
  - cbn zeta. destruct (delete_original self).
    + repeat case_match; eexists; cbn; rewrite <- ?app_assoc;
        (split; [reflexivity|]); cbn; (split; [lia | discriminate]).
    + eexists. cbn. rewrite <- app_assoc. split; [reflexivity|].
      cbn. split; [lia | reflexivity].
Qed.

Lemma for_loop_counts total i files (st : state content) :
  total <> 0 ->
  exists ext,
    signals (snd (for_loop W self total i files st)) = signals st ++ ext /\
    successful (snd (for_loop W self total i files st)) = successful st + written ext /\
    (delete_original self = false -> count is_remove_failed ext = 0).
Proof.
  intros Ht.
  apply (for_loop_invariant W self
           (fun s => exists ext,
                signals s = signals st ++ ext /\
                successful s = successful st + written ext /\
                (delete_original self = false -> count is_remove_failed ext = 0))).
  - exact Ht.
  - intros s H. exact H.
  - intros j p s (ext & Hsig & Hsucc & Hrem).
    destruct (item_result_counts p s) as (blk & Hb1 & Hb2 & Hb3).
    exists (ext ++ blk ++ [progress (percent_val (j + 1) total)]).
    unfold iteration_result. cbn [signals successful add_signal].
    rewrite Hb1, Hb2, Hsig, Hsucc, !written_app, !count_app, <- !app_assoc.
    split; [reflexivity|]. split; [cbn; lia|].
    intros Hd. rewrite (Hrem Hd), (Hb3 Hd). reflexivity.
  - exists []. rewrite app_nil_r. split; [reflexivity|]. split; [cbn; lia|reflexivity].
Qed.
End SuccessCount.

(** ** The end of a batch *)

Section BatchEnd.
Context {content raster : Type} (W : World content raster).
Variable self : ConversionThread.

Lemma item_block_events p blk :
  item_block p blk ->
  Forall (fun s => is_item_event s = true /\ is_batch_finished s = false) blk.
Proof. intros []; repeat constructor. Qed.

Lemma blocks_events total i files bs :
  blocks total i files bs ->
  Forall (fun s => is_item_event s = true /\ is_batch_finished s = false) (concat bs).
Proof.
  revert i bs. induction files as [|p rest IH]; intros i [|b bs] H;
    cbn [blocks] in H; try contradiction; [constructor|].
  destruct H as [(blk & Hblk & ->) H]. cbn [concat].
  rewrite !Forall_app. split; [split|].
  - apply (item_block_events _ _ Hblk).
  - repeat constructor.
  - apply (IH _ _ H).
Qed.

Lemma count_all (f : signal -> bool) tr :
  Forall (fun s => f s = true) tr -> count f tr = length tr.
Proof.
  induction 1 as [|s tr Hs _ IH]; [reflexivity|].
  change (s :: tr) with ([s] ++ tr). rewrite count_app, length_app, IH.
  f_equal. unfold count. cbn. rewrite Hs. reflexivity.
Qed.

Lemma count_none (f : signal -> bool) tr :
  Forall (fun s => f s = false) tr -> count f tr = 0.
Proof.
  induction 1 as [|s tr Hs _ IH]; [reflexivity|].
  change (s :: tr) with ([s] ++ tr). rewrite count_app, IH.
  unfold count. cbn. rewrite Hs. reflexivity.
Qed.

(** The signals of a run: those of its items, then the finished signal
    and the summary line with the number of outputs written. *)
Lemma trace_end (files : gmap string content) :
  exists items,
    trace W self files
    = items ++ [finished_signal true;
                log_message (msg_done (written items) (length (file_list self)))] /\
    Forall (fun s => is_item_event s = true /\ is_batch_finished s = false) items.
Proof.
  destruct (trace_blocks W self files) as (bs & s & Htr & Hblocks).
  cbv zeta in Htr, Hblocks.
  exists (concat bs). split; [|apply (blocks_events _ _ _ _ Hblocks)].
  assert (Hs : s = written (concat bs)); [|rewrite Htr, Hs; reflexivity].
  rewrite trace_eq in Htr.
  destruct (Nat.eq_dec (length (file_list self)) 0) as [H0|Ht].
  - apply nil_length_inv in H0. rewrite H0 in Htr, Hblocks.
    destruct bs; [|contradiction]. cbn in Htr. injection Htr as <-. reflexivity.
  - destruct (for_loop_counts W self _ 0 (file_list self) (initial files) Ht)
      as (ext & Hsig & Hsucc & _).
    rewrite Hsig, Hsucc in Htr. cbn [signals successful initial app Nat.add] in Htr.
    apply app_inj_2 in Htr as [<- Heq]; [|reflexivity].
    injection Heq as Heq. symmetry. exact Heq.
Qed.

Lemma empty_list_shape (files : gmap string content) :
  file_list self = [] ->
  trace W self files = [finished_signal true; log_message (msg_done 0 0)].
Proof. intros H. unfold trace, run. rewrite H. reflexivity. Qed.
End BatchEnd.

(** ** The end of a batch, whatever happens to the list *)

Section LiveShape.
Context {content raster : Type} (W : World content raster).
Variable self : ConversionThread.

Lemma item_result_shape p (st : state content) :
  exists blk,
    signals (item_result W self p st) = signals st ++ blk /\
    successful (item_result W self p st) = successful st + written blk /\
    Forall (fun s => is_item_event s = true /\ is_batch_finished s = false) blk.
Proof.
  destruct (item_result_counts W self p st) as (blk & Hsig & Hsucc & _).
  destruct (item_result_block W self p st) as (blk' & Hblk & Hsig').
  rewrite Hsig in Hsig'. apply app_inv_head in Hsig'. subst blk'.
  exists blk. split; [exact Hsig | split; [exact Hsucc|]].
  apply (item_block_events _ _ Hblk).
Qed.

(** What one pass through the loop body adds, and how it ends. *)
Lemma iteration_shape total i p (st : state content) :
  exists ext,
    signals (snd (iteration W self total i p st)) = signals st ++ ext /\
    successful (snd (iteration W self total i p st)) = successful st + written ext /\
    Forall (fun s => is_item_event s = true /\ is_batch_finished s = false) ext /\
    is_running (snd (iteration W self total i p st)) = is_running st /\
    (fst (iteration W self total i p st) = inr tt
     \/ total = 0 /\ fst (iteration W self total i p st) = inl ZeroDivisionError).
Proof.
  rewrite iteration_cases.
  destruct (item_result_shape p st) as (blk & Hsig & Hsucc & Hev).
  destruct (percent (i + 1) total) as [e|v] eqn:E.
  - destruct (percent_raises _ _ _ E) as [-> ->].
    exists blk. cbn [fst snd]. rewrite item_result_running.
    split; [exact Hsig | split; [exact Hsucc | split; [exact Hev|]]].
    split; [reflexivity | right; split; reflexivity].
  - exists (blk ++ [progress v]). cbn [fst snd signals successful add_signal is_running].
    rewrite Hsig, Hsucc, written_app, <- app_assoc, item_result_running.
    split; [reflexivity|]. split; [cbn; lia|]. split; [|split; [reflexivity | left; reflexivity]].
    apply Forall_app. split; [exact Hev | repeat constructor].
Qed.

Lemma for_loop_shape total i files (st : state content) :
  exists ext,
    signals (snd (for_loop W self total i files st)) = signals st ++ ext /\
    successful (snd (for_loop W self total i files st)) = successful st + written ext /\
    Forall (fun s => is_item_event s = true /\ is_batch_finished s = false) ext /\
    (fst (for_loop W self total i files st) = inr tt
     \/ total = 0 /\ fst (for_loop W self total i files st) = inl ZeroDivisionError).
Proof.
  revert i st. induction files as [|p rest IH]; intros i st.
  { no_item. }
  destruct (stop_before W i) eqn:Hs.
  { rewrite for_loop_break by exact Hs. no_item. }
  destruct (is_running st) eqn:Hr.
  2:{ rewrite for_loop_idle by exact Hr. no_item. }
  cbn [for_loop]. unfold interface. rewrite Hs.
  unfold mbind, M_bind, mret, M_ret, get_state. rewrite Hr. cbn [negb].
  destruct (iteration_shape total i p st) as (ext1 & Hsig1 & Hsucc1 & Hev1 & _ & Hend1).
  destruct (iteration W self total i p st) as [[e|[]] st1]; cbn [fst snd] in *.
  - exists ext1. split; [exact Hsig1 | split; [exact Hsucc1 | split; [exact Hev1 | exact Hend1]]].
  - destruct (IH (S i) st1) as (ext2 & Hsig2 & Hsucc2 & Hev2 & Hend2).
    exists (ext1 ++ ext2). rewrite Hsig2, Hsucc2, Hsig1, Hsucc1, written_app, <- app_assoc.
    split; [reflexivity|]. split; [lia|]. split; [|exact Hend2].
    apply Forall_app. split; assumption.
Qed.

Lemma live_loop_shape total i l edits (st : state content) :
  exists ext,
    signals (snd (live_loop W self total i l edits st)) = signals st ++ ext /\
    successful (snd (live_loop W self total i l edits st)) = successful st + written ext /\
    Forall (fun s => is_item_event s = true /\ is_batch_finished s = false) ext /\
    (fst (live_loop W self total i l edits st) = inr tt
     \/ total = 0 /\ fst (live_loop W self total i l edits st) = inl ZeroDivisionError).
Proof.
  revert i l st. induction edits as [|es edits IH]; intros i l st.
  { apply for_loop_shape. }
  cbn [live_loop]. cbv zeta. set (l' := foldl apply_edit l es).
  destruct (l' !! i) as [p|].
  2:{ no_item. }
  unfold mbind, M_bind, mret, M_ret, interface, get_state.
  destruct (stop_before W i) eqn:Hs.
  { no_item. }
  cbn. destruct (is_running st) eqn:Hr; cbn [negb].
  2:{ no_item. }
  destruct (iteration_shape total i p st) as (ext1 & Hsig1 & Hsucc1 & Hev1 & _ & Hend1).
  destruct (iteration W self total i p st) as [[e|[]] st1]; cbn [fst snd] in *.
  - exists ext1. split; [exact Hsig1 | split; [exact Hsucc1 | split; [exact Hev1 | exact Hend1]]].
  - destruct (IH (S i) l' st1) as (ext2 & Hsig2 & Hsucc2 & Hev2 & Hend2).
    exists (ext1 ++ ext2). rewrite Hsig2, Hsucc2, Hsig1, Hsucc1, written_app, <- app_assoc.
    split; [reflexivity|]. split; [lia|]. split; [|exact Hend2].
    apply Forall_app. split; assumption.
Qed.

(** The signals of a run, whatever the interface does to the list: those
    of the items, then the finished signal and the summary line, or, when
    the list was empty at the start and an item was added in time to be
    fetched, the line of the outer [except] and the finished signal. *)
Lemma live_trace_shape (files : gmap string content) :
  exists items,
    Forall (fun s => is_item_event s = true /\ is_batch_finished s = false) items /\
    (live_trace W self files
     = items ++ [finished_signal true;
                 log_message (msg_done (written items) (length (file_list self)))]
     \/ length (file_list self) = 0 /\
        live_trace W self files
        = items ++ [log_message (msg_critical ZeroDivisionError);
                    finished_signal false]).
Proof.
  destruct (live_loop_shape (length (file_list self)) 0 (file_list self) (list_edits W)
              (initial files)) as (ext & Hsig & Hsucc & Hev & Hend).
  exists ext. split; [exact Hev|].
  unfold live_trace, live_run, try_except, mbind, M_bind, modify, emit, get_state.
  change (set_successful 0 (initial files)) with (initial files).
  destruct (live_loop W self (length (file_list self)) 0 (file_list self)
              (list_edits W) (initial files)) as [[e|[]] st1]; cbn [fst snd] in *.
  - right. destruct Hend as [H|[H0 H]]; [discriminate|]. injection H as ->.
    split; [exact H0|]. cbn. rewrite Hsig. cbn. rewrite <- app_assoc. reflexivity.
  - left. cbn. rewrite Hsig, Hsucc. cbn. rewrite <- app_assoc. reflexivity.
Qed.
End LiveShape.

(** C3: every run reports the end of the batch exactly once, as the last
    thing it emits, whatever the interface does meanwhile: one finished
    signal together with its log line.  Everything emitted before these
    two is a signal of an item (a "converting", "removed", "success" or
    "error" line, or a progress value), none of which is a finished
    signal, a summary line or the line of the outer [except]; nothing is
    emitted after them.  The two are the finished signal with [True]
    immediately followed by the summary line, which carries the number of
    outputs written and the number of files; except in a run started on an
    empty list to which the interface adds a file in time for the loop to
    fetch it, where they are the line of the outer [except] followed by
    the finished signal with [False]. *)
Theorem batch_finished_once_and_last {content raster} (W : World content raster)
    (self : ConversionThread) (files : gmap string content) :
  let N := length (file_list self) in
  let tr := live_trace W self files in
  exists items,
    Forall (fun s => is_item_event s = true /\ is_batch_finished s = false) items /\
    (tr = items ++ [finished_signal true;
                    log_message (msg_done (count is_succeeded items
                                           + count is_remove_failed items) N)]
     \/ N = 0 /\
        tr = items ++ [log_message (msg_critical ZeroDivisionError);
                       finished_signal false]) /\
    count is_item_event tr = length items /\
    count is_finished tr = 1 /\
    count is_batch_finished tr = 2 /\
    (1 <= N \/ list_untouched W ->
     tr = items ++ [finished_signal true;
                    log_message (msg_done (count is_succeeded items
                                           + count is_remove_failed items) N)]) /\
    (list_untouched W -> tr = trace W self files).
Proof.
  intros N tr.
  destruct (live_trace_shape W self files) as (items & Hall & Htr).
  fold N tr in Htr. change (written items)
    with (count is_succeeded items + count is_remove_failed items) in Htr.
  exists items. split; [exact Hall|]. split; [exact Htr|].
  assert (Hitems : count is_item_event items = length items).
  { apply count_all. eapply Forall_impl; [exact Hall | intros s [H _]; exact H]. }
  assert (Hfin : count is_finished items = 0).
  { apply count_none. eapply Forall_impl; [exact Hall|]. intros s [_ H].
    unfold is_batch_finished in H.
    apply orb_false_iff in H as [H _]. apply orb_false_iff in H as [H _]. exact H. }
  assert (Hend : count is_batch_finished items = 0).
  { apply count_none. eapply Forall_impl; [exact Hall|]. intros s [_ H]. exact H. }
  split; [|split; [|split; [|split]]].
  - destruct Htr as [->|[_ ->]]; rewrite count_app, Hitems; cbn; lia.
  - destruct Htr as [->|[_ ->]]; rewrite count_app, Hfin; reflexivity.
  - destruct Htr as [->|[_ ->]]; rewrite count_app, Hend; reflexivity.
  - intros Hcase. destruct Htr as [Htr|[H0 Htr]]; [exact Htr|].
    destruct Hcase as [Hn|Hlist]; [lia|]. exfalso.
    unfold tr in Htr. rewrite (live_trace_untouched W self files Hlist) in Htr.
    apply nil_length_inv in H0.
    rewrite (empty_list_shape W self files H0) in Htr.
    destruct items as [|a [|b [|c items]]]; cbn in Htr; discriminate.
  - intros Hlist. apply (live_trace_untouched W self files Hlist).
Qed.

(** C3 on a run never stopped, and on a run started on an empty list
    that receives a file before its first item is looked for. *)
Lemma batch_finished_once_and_last_witness :
  let th := ConversionThread_init two_files "/out" 90 false in
  let th0 := ConversionThread_init [] "/out" 90 false in
  live_trace (toy_world [] [] []) th two_sources
  = [log_message (msg_converting "x.orf"); log_message (msg_success "x.jpg");
     progress 50;
     log_message (msg_converting "y.orf"); log_message (msg_success "y.jpg");
     progress 100;
     finished_signal true; log_message (msg_done 2 2)] /\
  count is_finished (live_trace (toy_world [] [] []) th two_sources) = 1 /\
  live_trace late_world th0 one_source
  = [log_message (msg_converting "x.orf"); log_message (msg_success "x.jpg");
     log_message (msg_critical ZeroDivisionError); finished_signal false] /\
  count is_finished (live_trace late_world th0 one_source) = 1.
Proof.
  intros th th0.
  destruct (batch_finished_once_and_last (toy_world [] [] []) th two_sources)
    as (items & _ & _ & _ & Hone & _).
  destruct (batch_finished_once_and_last late_world th0 one_source)
    as (items0 & _ & _ & _ & Hone0 & _).
  split; [vm_compute; reflexivity|]. split; [exact Hone|].
  split; [vm_compute; reflexivity | exact Hone0].
Defined.

(** * Further properties of the code *)

(** ** Every started item is accounted for *)

Section Accounting.
Context {content raster : Type} (W : World content raster).
Variable self : ConversionThread.

Lemma started_names_app (a b : list signal) :
  started_names (a ++ b) = started_names a ++ started_names b.
Proof. apply omap_app. Qed.

Lemma item_block_names p blk :
  item_block p blk -> started_names blk = [Path.basename p].
Proof. intros []; reflexivity. Qed.

Lemma blocks_names total i files bs :
  blocks total i files bs ->
  started_names (concat bs) = Path.basename <$> files.
Proof.
  revert i bs. induction files as [|p rest IH]; intros i [|b bs] H;
    cbn [blocks] in H; try contradiction; [reflexivity|].
  destruct H as [(blk & Hblk & ->) H]. cbn [concat fmap list_fmap].
  rewrite !started_names_app, (item_block_names _ _ Hblk), (IH _ _ H).
  reflexivity.
Qed.

Lemma item_block_no_report p blk :
  item_block p blk -> count is_failure_report blk = 0.
Proof. intros []; reflexivity. Qed.

Lemma blocks_no_report total i files bs :
  blocks total i files bs -> count is_failure_report (concat bs) = 0.
Proof.
  revert i bs. induction files as [|p rest IH]; intros i [|b bs] H;
    cbn [blocks] in H; try contradiction; [reflexivity|].
  destruct H as [(blk & Hblk & ->) H]. cbn [concat].
  rewrite !count_app, (item_block_no_report _ _ Hblk), (IH _ _ H). reflexivity.
Qed.
End Accounting.

(** X1: in every run, with [k] the number of items the loop goes
    through before it finds [stop] called, exactly [k] items start, exactly
    [k] terminal lines are emitted, and the progress values are those of
    items 1 to [k] of the whole batch. *)
Theorem started_items_accounted {content raster} (W : World content raster)
    (self : ConversionThread) (files : gmap string content) :
  let tr := trace W self files in
  let k := iterations W 0 (length (file_list self)) in
  k <= length (file_list self) /\
  count is_started tr = k /\
  count is_terminal tr = k /\
  progress_values tr
  = (fun a => percent_val a (length (file_list self))) <$> seq 1 k.
Proof.
  cbv zeta. split; [apply iterations_le|].
  rewrite trace_progress, trace_terminal.
  destruct (trace_blocks W self files) as (bs & s & Htr & Hblocks).
  rewrite Htr, count_app, (blocks_started _ _ _ _ Hblocks), length_take.
  pose proof (iterations_le W 0 (length (file_list self))).
  rewrite Nat.min_l by lia. cbn. repeat split; lia.
Qed.

(** X2: the "converting" lines of a run name, in list order and with
    repetitions, the base names of the files the loop went through. *)
Theorem items_started_in_list_order {content raster} (W : World content raster)
    (self : ConversionThread) (files : gmap string content) :
  started_names (trace W self files)
  = Path.basename
      <$> take (iterations W 0 (length (file_list self))) (file_list self).
Proof.
  destruct (trace_blocks W self files) as (bs & s & Htr & Hblocks).
  rewrite Htr, started_names_app, (blocks_names _ _ _ _ Hblocks).
  cbn. apply app_nil_r.
Qed.

(** X3: whatever happens to the items, [run] raises nothing, emits
    neither the "critical error" line nor [finished_signal(False)], and
    emits [finished_signal(True)]. *)
Theorem run_never_reports_failure {content raster} (W : World content raster)
    (self : ConversionThread) (files : gmap string content) :
  fst (run W self (initial files)) = inr tt /\
  count is_failure_report (trace W self files) = 0 /\
  finished_signal true ∈ trace W self files.
Proof.
  split; [rewrite run_eq; reflexivity|].
  destruct (trace_blocks W self files) as (bs & s & Htr & Hblocks).
  rewrite Htr, count_app, (blocks_no_report _ _ _ _ Hblocks). split; [reflexivity|].
  apply elem_of_app. right. left.
Qed.

(** ** The count of the summary line *)

(** X4: the success count of the summary line is the number of
    "success" lines plus the number of "error" lines due to a failed
    removal of the source; with [delete_original] unset there is no such
    error line, and it is the number of "success" lines. *)
Theorem summary_counts_written_outputs {content raster} (W : World content raster)
    (self : ConversionThread) (files : gmap string content) :
  exists items,
    trace W self files
    = items ++ [finished_signal true;
                log_message (msg_done (count is_succeeded items
                                       + count is_remove_failed items)
                                      (length (file_list self)))] /\
    (delete_original self = false -> count is_remove_failed items = 0).
Proof.
  rewrite trace_eq.
  destruct (Nat.eq_dec (length (file_list self)) 0) as [H0|Ht].
  - apply nil_length_inv in H0. rewrite H0. exists []. split; reflexivity.
  - destruct (for_loop_counts W self _ 0 (file_list self) (initial files) Ht)
      as (ext & Hsig & Hsucc & Hrem).
    exists ext. rewrite Hsig, Hsucc. split; [reflexivity | exact Hrem].
Qed.

(** ** Files a run leaves alone *)

Section Frame.
Context {content raster : Type} (W : World content raster).
Variable self : ConversionThread.

Lemma for_loop_invariant_elem (P : state content -> Prop) total i files st :
  total <> 0 ->
  (forall st, P st -> P (set_is_running false st)) ->
  (forall i p st, p ∈ files -> P st -> P (iteration_result W self total i p st)) ->
  P st -> P (snd (for_loop W self total i files st)).
Proof.
  intros Ht Hstop. revert i st.
  induction files as [|p rest IH]; intros i st Hiter HP; [exact HP|].
  destruct (stop_before W i) eqn:Hs.
  { rewrite for_loop_break by assumption. apply Hstop, HP. }
  destruct (is_running st) eqn:Hr.
  2:{ rewrite for_loop_idle by assumption. exact HP. }
  rewrite for_loop_run by assumption. apply IH.
  - intros j q s Hq. apply Hiter. right. exact Hq.
  - apply Hiter; [left | exact HP].
Qed.

Lemma item_result_frame p (st : state content) c :
  realpath W (output_path self p) <> c ->
  (delete_original self = true -> realpath W p <> c) ->
  fs (item_result W self p st) !! c = fs st !! c.
Proof.
  intros Hout Hsrc. rewrite item_result_fs.
  destruct (attempt W self p (fs st)) as [e|bytes];
    [apply files_after_failure_frame, Hout|].
  cbn zeta. destruct (delete_original self) eqn:Hd.
  - destruct (_ && _ && can_remove W p).
    + rewrite lookup_delete_ne by (apply Hsrc; reflexivity).
      apply lookup_insert_ne, Hout.
    + apply lookup_insert_ne, Hout.
  - cbn [andb]. apply lookup_insert_ne, Hout.
Qed.
End Frame.

(** X5: a run changes no file other than the outputs of the items it
    went through and, with [delete_original] set, their sources, whatever
    the paths that name them: any other file holds after the run what it
    held before, the sources of the items left out by a cancellation
    included. *)
Theorem run_touches_only_outputs_and_sources {content raster}
    (W : World content raster) (self : ConversionThread)
    (files : gmap string content) (c : string) :
  let processed :=
    take (iterations W 0 (length (file_list self))) (file_list self) in
  (forall p, p ∈ processed -> realpath W (output_path self p) <> c) ->
  (delete_original self = true -> forall p, p ∈ processed -> realpath W p <> c) ->
  fs (snd (run W self (initial files))) !! c = files !! c.
Proof.
  intros processed Hout Hsrc. rewrite run_eq. cbn [snd fs add_signal].
  destruct (Nat.eq_dec (length (file_list self)) 0) as [H0|Ht].
  - apply nil_length_inv in H0. rewrite H0. reflexivity.
  - destruct (for_loop_as_never_stopped W self _ 0 (file_list self) (initial files)
                Ht eq_refl) as (_ & Hfs & _).
    change (set_successful 0 (initial files)) with (initial files).
    rewrite Hfs. fold processed.
    apply (for_loop_invariant_elem (never_stopped W) self
             (fun s => fs s !! c = files !! c));
      [exact Ht | intros s H; exact H | | reflexivity].
    intros i p s Hp Hs. unfold iteration_result. cbn [fs add_signal].
    rewrite (item_result_frame (never_stopped W) self p s c);
      [exact Hs | apply Hout, Hp |].
    intros Hd. apply (Hsrc Hd), Hp.
Qed.

(** X5 on the run stopped before its second item: that item's source stays. *)
Lemma run_touches_only_outputs_and_sources_witness :
  let th := ConversionThread_init two_files "/out" 90 true in
  fs (snd (run stopped_after_first th (initial two_sources))) !! "/b/y.orf"%string
  = Some "Y"%string.
Proof.
  intros th.
  refine (run_touches_only_outputs_and_sources stopped_after_first th two_sources
            "/b/y.orf" _ _).
  - intros p Hp. vm_compute in Hp.
    apply elem_of_cons in Hp as [->|Hp]; [vm_compute; discriminate|].
    inversion Hp.
  - intros _ p Hp. vm_compute in Hp.
    apply elem_of_cons in Hp as [->|Hp]; [vm_compute; discriminate|].
    inversion Hp.
Defined.

(** X6: with [delete_original] set, once an item is converted and its
    source removed, converting the same path again (a file listed twice)
    fails with a decode error, writes nothing and leaves the success count
    as it was. *)
Theorem listed_twice_fails_after_removal {content raster} (W : World content raster)
    (self : ConversionThread) (p : string) (st : state content) (bytes : content) :
  delete_original self = true ->
  attempt W self p (fs st) = inr bytes ->
  can_remove W p = true ->
  realpath W (output_path self p) <> realpath W p ->
  let st1 := snd (item W self p st) in
  let st2 := snd (item W self p st1) in
  fs st1 !! realpath W p = None /\
  signals st2
  = signals st1 ++ [log_message (msg_converting (Path.basename p));
                    log_message (msg_error (Path.basename p) DecodeError)] /\
  fs st2 = fs st1 /\
  successful st2 = successful st1.
Proof.
  intros Hd Hat Hrm Hne. cbv zeta. rewrite !item_eq. cbn [snd].
  assert (Hgone : fs (item_result W self p st) !! realpath W p = None).
  { rewrite item_result_fs, Hat. cbn zeta. rewrite Hd, Hrm.
    assert (Hsrc : is_Some (<[realpath W (output_path self p):=bytes]> (fs st)
                              !! realpath W p)).
    { rewrite lookup_insert_ne by exact Hne.
      unfold attempt in Hat. destruct (fs st !! realpath W p); [eauto | discriminate]. }
    rewrite bool_decide_eq_true_2 by exact Hsrc. cbn. apply lookup_delete_eq. }
  assert (Hat2 : attempt W self p (fs (item_result W self p st)) = inl DecodeError).
  { unfold attempt. rewrite Hgone. reflexivity. }
  split; [exact Hgone|].
  rewrite (item_result_failed W self p DecodeError _ Hat2). cbn.
  rewrite <- app_assoc. unfold files_after_failure. rewrite Hgone.
  repeat split; reflexivity.
Qed.

(** X6 on one source listed twice. *)
Lemma listed_twice_fails_after_removal_witness :
  let W := toy_world [] [] [] in
  let th := ConversionThread_init ["/a/x.orf"; "/a/x.orf"]%string "/out" 90 true in
  trace W th one_source
  = [log_message (msg_converting "x.orf"); log_message (msg_removed "x.orf");
     log_message (msg_success "x.jpg"); progress 50;
     log_message (msg_converting "x.orf");
     log_message (msg_error "x.orf" DecodeError); progress 100;
     finished_signal true; log_message (msg_done 1 2)] /\
  fs (snd (item W th "/a/x.orf" (initial one_source))) !! "/a/x.orf"%string = None.
Proof.
  intros W th. split; [vm_compute; reflexivity|].
  refine (proj1 (listed_twice_fails_after_removal W th "/a/x.orf" (initial one_source)
                   "jpg:X"%string _ _ _ _)); vm_compute; (reflexivity || discriminate).
Defined.



(** ** Outputs stay in the output folder *)

Module OutputPathFacts.
Import Path PathFacts.

Lemma split_components c s : Forall (fun x => has c x = false) (split c s).
Proof.
  induction s as [|a s IH]; cbn.
  - constructor; [reflexivity | constructor].
  - destruct (eqc a c) eqn:E.
    + constructor; [reflexivity | exact IH].
    + destruct (split c s) as [|x xs]; [repeat constructor; cbn; rewrite E; reflexivity|].
      inversion IH as [|? ? Hx Hxs]; subst.
      constructor; [cbn; rewrite E, Hx; reflexivity | exact Hxs].
Qed.

Lemma has_take c n s : has c s = false -> has c (take n s) = false.
Proof.
  revert n. induction s as [|a s IH]; intros [|n] H; cbn in *; try reflexivity.
  apply orb_false_iff in H as [Ha Hs]. rewrite Ha, (IH n Hs). reflexivity.
Qed.

Lemma last_Forall {A} (P : A -> Prop) (l : list A) d :
  P d -> Forall P l -> P (List.last l d).
Proof.
  intros Hd. induction 1 as [|x l Hx Hl IH]; [exact Hd|].
  cbn. destruct l; [exact Hx | exact IH].
Qed.

Lemma name_no_sep p : has sep (name p) = false.
Proof.
  unfold name. apply (last_Forall (fun x => has sep x = false)); [reflexivity|].
  apply Forall_forall. intros x Hx. apply list_elem_of_In, List.filter_In in Hx as [Hx _].
  pose proof (split_components sep p) as H. rewrite Forall_forall in H.
  apply H, list_elem_of_In, Hx.
Qed.

Lemma stem_no_sep p : has sep (stem p) = false.
Proof.
  unfold stem. destruct (_ && _); [apply has_take|]; apply name_no_sep.
Qed.

Lemma drop_app c (a b : string) :
  drop (S (String.length a)) (a +:+ String c b) = b.
Proof.
  induction a as [|x a IH]; [reflexivity|]. rewrite append_cons. exact IH.
Qed.

Lemma basename_after_sep (a b : string) :
  has sep b = false -> basename (a +:+ String sep b) = b.
Proof.
  intros Hb. unfold basename. rewrite (rfind_last sep a b Hb).
  replace (Z.to_nat (Z.of_nat (String.length a) + 1)) with (S (String.length a)) by lia.
  apply drop_app.
Qed.

Lemma basename_no_sep (b : string) : has sep b = false -> basename b = b.
Proof.
  intros Hb. unfold basename. rewrite (rfind_absent sep b Hb). reflexivity.
Qed.

Lemma endswith_inv c (a : string) :
  endswith c a = true -> exists a', a = a' +:+ String c EmptyString.
Proof.
  induction a as [|x a IH]; [discriminate|].
  destruct a as [|y a].
  - cbn. unfold eqc. intros H. apply bool_decide_eq_true_1 in H as ->.
    exists EmptyString. reflexivity.
  - intros H. destruct (IH H) as (a' & Ha'). exists (String x a').
    rewrite append_cons, <- Ha'. reflexivity.
Qed.

Lemma endswith_app c (a : string) : endswith c (a +:+ String c EmptyString) = true.
Proof.
  induction a as [|x a IH]; [apply eqc_refl|].
  rewrite append_cons. cbn [endswith].
  destruct (a +:+ String c EmptyString) eqn:E; [|exact IH].
  destruct a; discriminate.
Qed.

Lemma startswith_no_sep (b : string) : has sep b = false -> startswith sep b = false.
Proof.
  destruct b as [|x b]; [reflexivity|]. cbn. intros H.
  apply orb_false_iff in H as [H _]. exact H.
Qed.

Lemma output_filename_no_sep p : has sep (output_filename p) = false.
Proof.
  unfold output_filename. rewrite has_app, stem_no_sep. reflexivity.
Qed.
End OutputPathFacts.

Lemma output_path_shape (self : ConversionThread) (p : string) :
  Path.basename (output_path self p) = output_filename p /\
  (output_path self p = output_dir self +:+ output_filename p \/
   output_path self p = output_dir self +:+ String Path.sep (output_filename p)).
Proof.
  pose proof (OutputPathFacts.output_filename_no_sep p) as Hf.
  unfold output_path, Path.join.
  rewrite (OutputPathFacts.startswith_no_sep _ Hf).
  destruct (Path.is_empty (output_dir self)) eqn:He.
  - cbn [orb]. split; [|left; reflexivity].
    destruct (output_dir self); [|discriminate]. rewrite PathFacts.append_nil.
    apply OutputPathFacts.basename_no_sep, Hf.
  - cbn [orb]. destruct (Path.endswith Path.sep (output_dir self)) eqn:Hs.
    + split; [|left; reflexivity].
      destruct (OutputPathFacts.endswith_inv _ _ Hs) as (a' & ->).
      rewrite PathFacts.append_assoc, PathFacts.append_cons, PathFacts.append_nil.
      apply OutputPathFacts.basename_after_sep, Hf.
    + split; [|right; reflexivity].
      apply OutputPathFacts.basename_after_sep, Hf.
Qed.

(** X8: the output file name never contains a separator, so
    [os.path.join] never discards [output_dir]: the output path is
    [output_dir] followed by the file name when [output_dir] is empty or
    ends with a separator, and [output_dir], one separator and the file
    name otherwise; its base name is the file name. *)
Theorem output_lands_in_output_dir (self : ConversionThread) (p : string) :
  Path.has Path.sep (output_filename p) = false /\
  Path.basename (output_path self p) = output_filename p /\
  output_path self p
  = (if Path.is_empty (output_dir self) || Path.endswith Path.sep (output_dir self)
     then output_dir self +:+ output_filename p
     else output_dir self +:+ String Path.sep (output_filename p)) /\
  (Path.is_empty (output_dir self) = true <-> output_dir self = EmptyString) /\
  (Path.endswith Path.sep (output_dir self) = true
   <-> exists d, output_dir self = d +:+ "/").
Proof.
  pose proof (OutputPathFacts.output_filename_no_sep p) as Hf.
  split; [exact Hf|]. split; [apply output_path_shape|]. split; [|split].
  - unfold output_path, Path.join.
    rewrite (OutputPathFacts.startswith_no_sep _ Hf). reflexivity.
  - destruct (output_dir self); cbn; split; intros H; (reflexivity || discriminate).
  - split.
    + apply OutputPathFacts.endswith_inv.
    + intros [d ->]. apply OutputPathFacts.endswith_app.
Qed.

(** ** How far the shown percentage is from the exact one *)

Module PercentFacts.
Import PyFloat PyFloatFacts.
Local Open Scope Q_scope.


Lemma rne_close t :
  inject_Z (rne t) - t <= 1 # 2 /\ t - inject_Z (rne t) <= 1 # 2.
Proof.
  unfold rne. pose proof (Qfloor_le t) as H1. pose proof (Qlt_floor t) as H2.
  rewrite inject_Z_plus in H2. change (inject_Z 1) with 1 in H2.
  destruct (Qcompare_spec (t - inject_Z (Qfloor t)) (1 # 2)) as [H|H|H];
    [destruct (Z.even (Qfloor t))| |];
    rewrite ?inject_Z_plus; change (inject_Z 1) with 1; lra.
Qed.

Lemma round_pos_error q : 0 < q -> q - q * half_ulp <= round_pos q /\ round_pos q <= q + q * half_ulp.
Proof.
  intros Hq. destruct (ulp_exp_spec q Hq) as [Hlo _].
  unfold round_pos. set (e := ulp_exp q) in *.
  pose proof (pow2_pos e) as HP.
  rewrite pow2_add, <- (pow2_inject 52) in Hlo by lia.
  set (P := pow2 e) in *. set (t := q / P).
  assert (Hq' : q == t * P).
  { unfold t. rewrite Qmult_comm. symmetry. apply Qmult_div_r.
    intros H0. rewrite H0 in HP. discriminate. }
  destruct (rne_close t) as [Hup Hdn].
  set (m := inject_Z (rne t)) in *.
  assert (H1 : (m - t) * P <= (1 # 2) * P)
    by (apply Qmult_le_compat_r; [exact Hup | apply Qlt_le_weak, HP]).
  assert (H2 : (t - m) * P <= (1 # 2) * P)
    by (apply Qmult_le_compat_r; [exact Hdn | apply Qlt_le_weak, HP]).
  assert (Hu : (1 # 2) * P <= q * half_ulp).
  { unfold half_ulp. change (inject_Z (2 ^ 52)) with (4503599627370496 # 1) in Hlo.
    change (1 # 2 ^ 53) with (1 # 9007199254740992). lra. }
  split; lra.
Qed.

Lemma round_error q : 0 < q -> q - q * half_ulp <= round q /\ round q <= q + q * half_ulp.
Proof.
  intros Hq. unfold round. destruct (Qcompare_spec q 0) as [H|H|H].
  - exfalso. rewrite H in Hq. discriminate.
  - exfalso. lra.
  - apply round_pos_error, Hq.
Qed.

Lemma round_gt0 q : 0 < q -> 0 < round q.
Proof.
  intros Hq. unfold round. destruct (Qcompare_spec q 0) as [H|H|H].
  - exfalso. rewrite H in Hq. discriminate.
  - exfalso. lra.
  - apply round_pos_gt0, Hq.
Qed.

Lemma inject_Z_pred k : inject_Z (k - 1) == inject_Z k - 1.
Proof.
  unfold Z.sub. rewrite inject_Z_plus, inject_Z_opp. reflexivity.
Qed.

Lemma Qfloor_unique y k :
  inject_Z k <= y -> y < inject_Z k + 1 -> Qfloor y = k.
Proof.
  intros H1 H2. apply Z.le_antisymm.
  - pose proof (Qfloor_le y) as H.
    assert (H3 : inject_Z (Qfloor y) < inject_Z (k + 1))
      by (rewrite inject_Z_plus; change (inject_Z 1) with 1; lra).
    rewrite <- Zlt_Qlt in H3. lia.
  - rewrite <- (Qfloor_Z k). apply Qfloor_resp_le, H1.
Qed.

(** The float [a / total * 100] is within [200 half_ulp + 100 half_ulp^2] of the exact
    percentage. *)
Lemma scaled_error (a total : nat) :
  (0 < a <= total)%nat ->
  let E := inject_Z (100 * Z.of_nat a) / inject_Z (Z.of_nat total) in
  E - (200 * half_ulp + 100 * half_ulp * half_ulp) <= scaled a total /\
  scaled a total <= E + (200 * half_ulp + 100 * half_ulp * half_ulp).
Proof.
  intros Ha E. unfold scaled, float_mul, ratio.
  set (q := inject_Z (Z.of_nat a) / inject_Z (Z.of_nat total)).
  assert (Hn : 0 < inject_Z (Z.of_nat total))
    by (change 0 with (inject_Z 0); rewrite <- Zlt_Qlt; lia).
  assert (Hq0 : 0 < q).
  { unfold q. apply Qlt_shift_div_l; [exact Hn|]. rewrite Qmult_0_l.
    change 0 with (inject_Z 0). rewrite <- Zlt_Qlt. lia. }
  assert (Hq1 : q <= 1).
  { unfold q. apply Qle_shift_div_r; [exact Hn|]. rewrite Qmult_1_l.
    rewrite <- Zle_Qle. lia. }
  assert (HE : E == 100 * q).
  { unfold E, q. rewrite inject_Z_mult. change (inject_Z 100) with 100.
    unfold Qdiv. ring. }
  assert (Hu0 : 0 < half_ulp) by reflexivity.
  destruct (round_error q Hq0) as [Hx1 Hx2]. set (x := round q) in *.
  assert (Hqu : q * half_ulp <= half_ulp).
  { rewrite <- (Qmult_1_l half_ulp) at 2. apply Qmult_le_compat_r; [exact Hq1 | lra]. }
  assert (Hx0 : 0 < x * inject_Z 100).
  { change (inject_Z 100) with 100. pose proof (round_gt0 q Hq0). fold x in H. lra. }
  destruct (round_error _ Hx0) as [Hy1 Hy2].
  change (inject_Z 100) with 100 in *.
  set (y := round (x * 100)) in *.
  assert (Hz : x * 100 * half_ulp <= (100 + 100 * half_ulp) * half_ulp).
  { apply Qmult_le_compat_r; [lra | lra]. }
  assert (Hz0 : 0 <= x * 100 * half_ulp).
  { apply Qmult_le_0_compat; lra. }
  rewrite HE. split; lra.
Qed.
End PercentFacts.

(** X9: for a batch of fewer than 2^40 files, the progress value after
    [a] of [total] items is the exact integer percentage
    [floor(100 a / total)], or one less; it is exact whenever
    [100 a / total] is not a whole number. *)
Theorem percent_is_floor_or_one_less (a total : nat) :
  0 < a <= total ->
  (Z.of_nat total < 2 ^ 40)%Z ->
  let k := (100 * Z.of_nat a / Z.of_nat total)%Z in
  (((100 * Z.of_nat a) mod Z.of_nat total <> 0)%Z -> percent a total = inr k) /\
  (percent a total = inr k \/ percent a total = inr (k - 1)%Z).
Proof.
  intros Ha Hsmall k.
  rewrite (PyFloatFacts.percent_inr a total) by lia.
  unfold percent_val.
  assert (Hfl : PyFloat.int_of_float (PyFloat.scaled a total)
                = Qfloor (PyFloat.scaled a total)).
  { unfold PyFloat.scaled. rewrite PyFloatFacts.percent_val_floor
      by apply PyFloatFacts.ratio_nonneg. reflexivity. }
  rewrite Hfl.
  destruct (PercentFacts.scaled_error a total Ha) as [Hlo Hhi].
  set (y := PyFloat.scaled a total) in *.
  set (n := Z.of_nat total) in *. set (r := ((100 * Z.of_nat a) mod n)%Z).
  assert (Hn : (0 < n)%Z) by (unfold n; lia).
  assert (Hdiv : (100 * Z.of_nat a = n * k + r)%Z) by (apply Z.div_mod; lia).
  assert (Hr : (0 <= r < n)%Z) by (apply Z.mod_pos_bound; exact Hn).
  assert (Hnq : (0 < inject_Z n)%Q)
    by (change 0%Q with (inject_Z 0); rewrite <- Zlt_Qlt; exact Hn).
  set (i := (/ inject_Z n)%Q).
  assert (Hi : (inject_Z n * i == 1)%Q).
  { unfold i. apply Qmult_inv_r. intros H0. rewrite H0 in Hnq. discriminate. }
  assert (HE : (inject_Z (100 * Z.of_nat a) / inject_Z n == inject_Z k + inject_Z r * i)%Q).
  { rewrite Hdiv, inject_Z_plus, inject_Z_mult. unfold Qdiv. fold i.
    assert (Hk : (inject_Z k * (inject_Z n * i) == inject_Z k * 1)%Q)
      by (rewrite Hi; reflexivity).
    lra. }
  rewrite HE in Hlo, Hhi.
  assert (Hipos : (0 < i)%Q) by (unfold i; apply Qinv_lt_0_compat, Hnq).
  assert (Hismall : ((1 # 2 ^ 40) < i)%Q).
  { assert (Hlt : (inject_Z n < inject_Z (2 ^ 40))%Q) by (rewrite <- Zlt_Qlt; exact Hsmall).
    change (inject_Z (2 ^ 40)) with (1099511627776 # 1)%Q in Hlt.
    change (1 # 2 ^ 40)%Q with (1 # 1099511627776)%Q.
    assert (Hm : (inject_Z n * i < (1099511627776 # 1) * i)%Q)
      by (apply Qmult_lt_compat_r; assumption).
    rewrite Hi in Hm. lra. }
  assert (Heta : (200 * half_ulp + 100 * half_ulp * half_ulp
                  < 1 # 2 ^ 40)%Q) by reflexivity.
  set (eta := (200 * half_ulp + 100 * half_ulp * half_ulp)%Q) in *.
  assert (Heta0 : (0 < eta)%Q) by reflexivity.
  assert (Hexact : (1 <= r)%Z -> Qfloor y = k).
  { intros Hr1. apply PercentFacts.Qfloor_unique.
    - assert (H1 : (1 * i <= inject_Z r * i)%Q).
      { apply Qmult_le_compat_r; [| lra].
        change 1%Q with (inject_Z 1). rewrite <- Zle_Qle. exact Hr1. }
      lra.
    - assert (H2 : (inject_Z r * i <= (inject_Z n - 1) * i)%Q).
      { apply Qmult_le_compat_r; [| lra].
        assert (Hle : (inject_Z r <= inject_Z (n - 1))%Q) by (rewrite <- Zle_Qle; lia).
        unfold Z.sub in Hle. rewrite inject_Z_plus, inject_Z_opp in Hle.
        exact Hle. }
      lra. }
  split.
  - intros Hmod. f_equal. apply Hexact. fold r in Hmod. lia.
  - destruct (Z.eq_dec r 0%Z) as [Hr0|Hr0].
    + rewrite Hr0 in Hlo, Hhi. change (inject_Z 0) with 0%Q in Hlo, Hhi.
      destruct (Qlt_le_dec y (inject_Z k)) as [Hlt|Hge].
      * right. f_equal. apply PercentFacts.Qfloor_unique.
        -- rewrite PercentFacts.inject_Z_pred.
           change (1 # 2 ^ 40)%Q with (1 # 1099511627776)%Q in Heta. lra.
        -- rewrite PercentFacts.inject_Z_pred. lra.
      * left. f_equal. apply PercentFacts.Qfloor_unique; [exact Hge|].
        change (1 # 2 ^ 40)%Q with (1 # 1099511627776)%Q in Heta. lra.
    + left. f_equal. apply Hexact. lia.
Qed.

(** X9 on 1 of 3 (exact) and on 29 of 100 (one less). *)
Lemma percent_is_floor_or_one_less_witness :
  percent 1 3 = inr 33%Z /\ percent 29 100 = inr 28%Z.
Proof.
  split.
  - refine (proj1 (percent_is_floor_or_one_less 1 3 _ _) _); [lia | reflexivity | discriminate].
  - vm_compute. reflexivity.
Defined.

(** ** The window *)

Section WindowFacts.
Context {content raster : Type} (W : World content raster).

Lemma fold_left_snoc_map {A B} (f : A -> B) (l : list A) (acc : list B) :
  fold_left (fun items x => items ++ [f x]) l acc = acc ++ (f <$> l).
Proof.
  revert acc. induction l as [|x l IH]; intros acc; cbn.
  - rewrite app_nil_r. reflexivity.
  - rewrite IH, <- app_assoc. reflexivity.
Qed.

Lemma update_file_list_widget w :
  file_list_widget (update_file_list w) = Path.basename <$> app_file_list (inputs w).
Proof. unfold update_file_list. cbn. rewrite fold_left_snoc_map. reflexivity. Qed.

Lemma win_start_conversion_cases w w' :
  win_start_conversion W w = inr w' ->
  w' = w \/ exists th, start_conversion W (inputs w) = inr (Some th) /\ w' = win_started th w.
Proof.
  unfold win_start_conversion.
  destruct (start_conversion W (inputs w)) as [e|[th|]]; [discriminate | |];
    intros [= <-]; [right; eauto | left; reflexivity].
Qed.

Lemma bar_setValue_visible v pb : bar_visible (bar_setValue v pb) = bar_visible pb.
Proof. unfold bar_setValue. destruct (_ || _); reflexivity. Qed.

Lemma bar_setValue_range v pb :
  bar_minimum (bar_setValue v pb) = bar_minimum pb /\
  bar_maximum (bar_setValue v pb) = bar_maximum pb.
Proof. unfold bar_setValue. destruct (_ || _); split; reflexivity. Qed.

Lemma bar_setValue_inside v pb :
  (bar_minimum pb <= v <= bar_maximum pb)%Z -> bar_value (bar_setValue v pb) = v.
Proof.
  intros Hv. unfold bar_setValue.
  destruct (Z.eqb_spec (bar_value pb) v) as [E|E]; [exact E|].
  destruct (Z.ltb_spec (bar_maximum pb) v); [lia|].
  destruct (Z.ltb_spec v (bar_minimum pb)); [lia|]. reflexivity.
Qed.
End WindowFacts.

(** X10: in every window the user can bring about, the list widget
    shows the base names of the listed files, in order. *)
Theorem list_widget_shows_base_names {content raster} (W : World content raster)
    (w : Window) :
  win_reachable W w ->
  file_list_widget w = Path.basename <$> app_file_list (inputs w).
Proof.
  induction 1 as [| files w _ IH | folder files w _ IH | folder w _ IH | w _ IH
                  | v w _ IH | b w _ IH | w w' _ IH Hen Hst | running w _ IH Hen
                  | s w _ IH].
  - reflexivity.
  - destruct files as [|f files]; [exact IH|].
    unfold win_add_files. cbn [file_list_widget log_append inputs].
    rewrite update_file_list_widget. reflexivity.
  - unfold win_add_folder. destruct (Path.is_empty folder); [exact IH|].
    destruct files as [|f files]; [exact IH|].
    cbn [file_list_widget log_append inputs]. rewrite update_file_list_widget. reflexivity.
  - unfold win_choose_output_folder, choose_output_folder. cbn.
    destruct (Path.is_empty folder); exact IH.
  - reflexivity.
  - exact IH.
  - exact IH.
  - destruct (win_start_conversion_cases W w w' Hst) as [->|(th & _ & ->)]; exact IH.
  - unfold win_stop_conversion. destruct (conversion_thread w); [|exact IH].
    destruct running; exact IH.
  - destruct s; exact IH.
Qed.

(** X10 after two files were added. *)
Lemma list_widget_shows_base_names_witness :
  file_list_widget (win_add_files two_files win_init) = ["x.orf"; "y.orf"]%string.
Proof.
  exact (list_widget_shows_base_names (toy_world [] [] []) _
           (wr_add_files _ two_files win_init (wr_init _))).
Defined.

(** X11: in every window the user can bring about, Start is enabled
    exactly when Stop is disabled, the progress bar is visible exactly when
    Stop is enabled, a thread exists whenever Stop is enabled, and the bar
    keeps the range 0..100. *)
Theorem buttons_follow_the_thread {content raster} (W : World content raster)
    (w : Window) :
  win_reachable W w ->
  btn_start_enabled w = negb (btn_stop_enabled w) /\
  bar_visible (progress_bar w) = btn_stop_enabled w /\
  (btn_stop_enabled w = true -> is_Some (conversion_thread w)) /\
  bar_minimum (progress_bar w) = 0%Z /\ bar_maximum (progress_bar w) = 100%Z.
Proof.
  induction 1 as [| files w _ IH | folder files w _ IH | folder w _ IH | w _ IH
                  | v w _ IH | b w _ IH | w w' _ IH Hen Hst | running w _ IH Hen
                  | s w _ IH].
  - repeat split; discriminate.
  - destruct files; exact IH.
  - unfold win_add_folder. destruct (Path.is_empty folder); [exact IH|].
    destruct files; exact IH.
  - exact IH.
  - exact IH.
  - exact IH.
  - exact IH.
  - destruct (win_start_conversion_cases W w w' Hst) as [->|(th & _ & ->)]; [exact IH|].
    destruct IH as (_ & _ & _ & Hmin & Hmax). cbn.
    rewrite bar_setValue_visible.
    destruct (bar_setValue_range 0 (bar_setVisible true (progress_bar w))) as [-> ->].
    repeat split; eauto.
  - unfold win_stop_conversion.
    destruct (conversion_thread w) eqn:E; [destruct running|]; cbn; rewrite ?E; exact IH.
  - destruct IH as (H1 & H2 & H3 & Hmin & Hmax). destruct s as [v|m|b]; cbn.
    + rewrite bar_setValue_visible.
      destruct (bar_setValue_range v (progress_bar w)) as [-> ->]. auto.
    + auto.
    + repeat split; (discriminate || assumption).
Qed.

(** X11 on a window whose conversion was just started. *)
Lemma buttons_follow_the_thread_witness :
  let W := toy_world [] [] [] in
  let w := win_started (ConversionThread_init two_files "/a" 95 false)
             (win_add_files two_files win_init) in
  btn_start_enabled w = false /\ bar_visible (progress_bar w) = true.
Proof.
  intros W w.
  assert (Hr : win_reachable W w).
  { apply (wr_start W (win_add_files two_files win_init));
      [apply wr_add_files, wr_init | reflexivity | reflexivity]. }
  destruct (buttons_follow_the_thread W w Hr) as (H1 & H2 & _).
  split; [exact H1 | exact H2].
Defined.

(** ** A run seen from the window *)

Section Delivery.

Lemma deliver_app a b w : deliver (a ++ b) w = deliver b (deliver a w).
Proof. unfold deliver. apply fold_left_app. Qed.

Lemma messages_app (a b : list signal) : messages (a ++ b) = messages a ++ messages b.
Proof. apply omap_app. Qed.

(** What the delivery of any signals leaves as it is, and what it adds to
    the log. *)
Lemma deliver_keeps tr w :
  inputs (deliver tr w) = inputs w /\
  file_list_widget (deliver tr w) = file_list_widget w /\
  conversion_thread (deliver tr w) = conversion_thread w /\
  log_text (deliver tr w) = log_text w ++ (line_thread <$> messages tr).
Proof.
  revert w. induction tr as [|s tr IH]; intros w.
  - cbn. rewrite app_nil_r. auto.
  - change (deliver (s :: tr) w) with (deliver tr (handle s w)).
    destruct (IH (handle s w)) as (H1 & H2 & H3 & H4).
    rewrite H1, H2, H3, H4. destruct s as [v|m|b]; cbn; repeat split; try reflexivity.
    rewrite <- app_assoc. reflexivity.
Qed.

Lemma default_last_cons (a v : Z) (l : list Z) :
  default a (last (v :: l)) = default v (last l).
Proof. rewrite last_cons. destruct (last l); reflexivity. Qed.

(** With values inside its range the bar shows the last one. *)
Lemma deliver_bar tr w :
  count is_finished tr = 0 ->
  Forall (fun v => bar_minimum (progress_bar w) <= v <= bar_maximum (progress_bar w))%Z
         (progress_values tr) ->
  bar_value (progress_bar (deliver tr w))
  = default (bar_value (progress_bar w)) (last (progress_values tr)).
Proof.
  revert w. induction tr as [|s tr IH]; intros w Hc Hv; [reflexivity|].
  change (deliver (s :: tr) w) with (deliver tr (handle s w)).
  destruct s as [v|m|b]; [| | discriminate].
  - cbn [progress_values omap] in Hv. apply Forall_cons in Hv as [Hv Hrest].
    change (progress_values (progress v :: tr)) with (v :: progress_values tr).
    rewrite default_last_cons, IH.
    + cbn [handle update_progress set_progress_bar progress_bar].
      rewrite (bar_setValue_inside v _ Hv). reflexivity.
    + exact Hc.
    + cbn [handle update_progress set_progress_bar progress_bar].
      destruct (bar_setValue_range v (progress_bar w)) as [-> ->]. exact Hrest.
  - apply (IH (handle (log_message m) w) Hc Hv).
Qed.
End Delivery.

Section RunRange.
Context {content raster : Type} (W : World content raster).

Lemma trace_progress_range (self : ConversionThread) (files : gmap string content) :
  Forall (fun v => 0 <= v <= 100)%Z (progress_values (trace W self files)).
Proof.
  rewrite trace_progress.
  pose proof (iterations_le W 0 (length (file_list self))) as Hle.
  apply Forall_fmap, Forall_forall. intros a Ha. apply elem_of_seq in Ha. cbn. split.
  - apply PyFloatFacts.percent_val_nonneg.
  - apply PyFloatFacts.percent_val_le_100; lia.
Qed.
End RunRange.

(** X12: once all the signals of a run are delivered to the window
    that started it, Start is enabled, Stop disabled, the bar hidden and at
    the last progress value (0 when there was none), the status says the
    conversion succeeded, whatever happened to the items, and the log holds
    the start line followed by the lines of the thread in order. *)
Theorem window_after_run {content raster} (W : World content raster)
    (self : ConversionThread) (files : gmap string content) (w : Window) :
  bar_minimum (progress_bar w) = 0%Z ->
  bar_maximum (progress_bar w) = 100%Z ->
  let tr := trace W self files in
  let w' := deliver tr (win_started self w) in
  btn_start_enabled w' = true /\
  btn_stop_enabled w' = false /\
  bar_visible (progress_bar w') = false /\
  status_label w' = status_success /\
  bar_value (progress_bar w') = default 0%Z (last (progress_values tr)) /\
  log_text w' = log_text w ++ line_begin :: (line_thread <$> messages tr) /\
  inputs w' = inputs w /\
  file_list_widget w' = file_list_widget w.
Proof.
  intros Hmin Hmax tr w'.
  destruct (deliver_keeps tr (win_started self w)) as (Hin & Hwid & _ & Hlog).
  pose proof (trace_progress_range W self files) as Hrange. fold tr in Hrange.
  destruct (trace_blocks W self files) as (bs & s & Htr & Hblocks). fold tr in Htr.
  pose proof (blocks_finished _ _ _ _ Hblocks) as Hfin.
  set (w0 := win_started self w) in *.
  assert (Hr0 : bar_minimum (progress_bar w0) = 0%Z /\ bar_maximum (progress_bar w0) = 100%Z).
  { unfold w0. cbn.
    destruct (bar_setValue_range 0 (bar_setVisible true (progress_bar w))) as [-> ->].
    auto. }
  assert (Hv0 : bar_value (progress_bar w0) = 0%Z).
  { unfold w0. cbn. apply bar_setValue_inside. cbn. lia. }
  assert (Hpv : progress_values tr = progress_values (concat bs)).
  { rewrite Htr, progress_values_app. cbn. apply app_nil_r. }
  assert (Hsplit : w' = handle (log_message (msg_done s (length (file_list self))))
                          (handle (finished_signal true) (deliver (concat bs) w0))).
  { unfold w'. rewrite Htr, deliver_app. reflexivity. }
  assert (Hbar : bar_value (progress_bar (deliver (concat bs) w0))
                 = default 0%Z (last (progress_values tr))).
  { rewrite deliver_bar; [rewrite Hv0, Hpv; reflexivity | exact Hfin |].
    destruct Hr0 as [-> ->]. rewrite <- Hpv. exact Hrange. }
  repeat split.
  - rewrite Hsplit. reflexivity.
  - rewrite Hsplit. reflexivity.
  - rewrite Hsplit. reflexivity.
  - rewrite Hsplit. reflexivity.
  - rewrite Hsplit. cbn. exact Hbar.
  - unfold w'. rewrite Hlog. unfold w0. cbn. rewrite <- app_assoc. reflexivity.
  - unfold w'. rewrite Hin. reflexivity.
  - unfold w'. rewrite Hwid. reflexivity.
Qed.

(** X12 on a run where no item could be decoded. *)
Lemma window_after_run_witness :
  let W := toy_world [] [] [] in
  let th := ConversionThread_init two_files "/out" 90 false in
  count is_succeeded (trace W th all_corrupt) = 0 /\
  status_label (deliver (trace W th all_corrupt) (win_started th win_init))
  = status_success.
Proof.
  intros W th. split; [vm_compute; reflexivity|].
  refine (proj1 (proj2 (proj2 (proj2 (window_after_run W th all_corrupt win_init _ _)))));
    reflexivity.
Defined.

(** ** The output folder *)

Section OutputFolder.
Lemma perform_keeps_folder a app :
  is_Some (output_folder app) -> is_Some (output_folder (perform a app)).
Proof.
  intros H. destruct a as [files|folder files|folder| |v|b]; cbn; try exact H.
  - destruct files; exact H.
  - unfold add_folder. destruct (Path.is_empty folder); [exact H|]. destruct files; exact H.
  - unfold choose_output_folder. destruct (Path.is_empty folder); [exact H|]. cbn. eauto.
Qed.

Lemma reachable_folder app :
  reachable app -> chosen (output_folder app) = output_folder app.
Proof.
  induction 1 as [| files app _ IH | folder files app _ IH | folder app _ IH
                  | app _ IH | v app _ IH | b app _ IH]; try exact IH.
  - reflexivity.
  - destruct files; exact IH.
  - unfold add_folder. destruct (Path.is_empty folder); [exact IH|]. destruct files; exact IH.
  - unfold choose_output_folder. destruct (Path.is_empty folder) eqn:E; [exact IH|].
    cbn. rewrite E. reflexivity.
Qed.
End OutputFolder.

(** X13: no action of the user on the inputs brings a chosen output
    folder back to "use the source folders". *)
Theorem output_folder_never_reset (acts : list action) (app : ORFConverterApp) :
  is_Some (output_folder app) ->
  is_Some (output_folder (perform_all acts app)).
Proof.
  revert app. induction acts as [|a acts IH]; intros app H; [exact H|].
  apply IH, perform_keeps_folder, H.
Qed.

(** X13 on a folder chosen before the list is cleared and refilled. *)
Lemma output_folder_never_reset_witness :
  is_Some (output_folder
             (perform_all [ClearList; ChooseOutputFolder ""; AddFiles two_files]
                (choose_output_folder "/out" init_ui))).
Proof.
  apply output_folder_never_reset. cbn. eauto.
Defined.

(** X14: with an output folder chosen and a non-empty list,
    [start_conversion] raises when the folder cannot be created, and
    otherwise builds a thread on the listed files whose every output path
    is the chosen folder followed by the output file name. *)
Theorem chosen_folder_receives_all_outputs {content raster} (W : World content raster)
    (app : ORFConverterApp) (d : string) :
  reachable app ->
  output_folder app = Some d ->
  app_file_list app <> [] ->
  (can_makedirs W d = false -> start_conversion W app = inl MakedirsError) /\
  (can_makedirs W d = true ->
   exists th,
     start_conversion W app = inr (Some th) /\
     file_list th = app_file_list app /\
     output_dir th = d /\
     forall p, Path.basename (output_path th p) = output_filename p /\
               (output_path th p = d +:+ output_filename p \/
                output_path th p = d +:+ String Path.sep (output_filename p))).
Proof.
  intros Hreach Hd Hne. pose proof (reachable_folder app Hreach) as Hch.
  rewrite Hd in Hch. unfold start_conversion. rewrite Hd, Hch.
  destruct (app_file_list app) as [|first rest] eqn:Hfl; [contradiction|].
  split; intros Hmk; rewrite Hmk; [reflexivity|].
  eexists. split; [reflexivity|]. cbn. repeat split.
  - apply output_path_shape.
  - apply output_path_shape.
Qed.

(** X14 on two sources from two folders and the folder [/out]. *)
Lemma chosen_folder_receives_all_outputs_witness :
  let W := toy_world [] [] [] in
  let app := add_files two_files (choose_output_folder "/out" init_ui) in
  exists th,
    start_conversion W app = inr (Some th) /\
    output_path th "/b/y.orf" = "/out/y.jpg"%string.
Proof.
  intros W app.
  assert (Hr : reachable app) by (apply reach_add_files, reach_choose_output_folder, reach_init).
  destruct (proj2 (chosen_folder_receives_all_outputs W app "/out" Hr eq_refl
                     ltac:(discriminate)) eq_refl) as (th & Hst & _).
  exists th. split; [exact Hst|].
  vm_compute in Hst. injection Hst as <-. reflexivity.
Defined.

(** ** A list that is empty when the run starts *)

(** X15: [run] takes the length of the list once, before the loop.  On a
    list that is empty then, the run is the one of an empty batch as long
    as the list is still empty when the loop looks for its first item,
    whatever is added later.  If the interface has added a file by then
    (and [stop] was not called), that file is converted, and the progress
    value of line 61 divides by zero: the outer [except] emits its line and
    the finished signal with [False], although the output was written. *)
Theorem empty_list_then_extended {content raster} (W : World content raster)
    (self : ConversionThread) (files : gmap string content) :
  file_list self = [] ->
  let first := foldl apply_edit [] (default [] (head (list_edits W))) in
  (first = [] ->
   live_run W self (initial files)
   = (inr tt,
      add_signal (log_message (msg_done 0 0))
        (add_signal (finished_signal true) (initial files)))) /\
  (forall p rest,
     first = p :: rest -> stop_before W 0 = true ->
     live_trace W self files = [finished_signal true; log_message (msg_done 0 0)]) /\
  (forall p rest,
     first = p :: rest -> stop_before W 0 = false ->
     let st := snd (item W self p (initial files)) in
     fst (live_run W self (initial files)) = inr tt /\
     live_trace W self files
     = signals st ++ [log_message (msg_critical ZeroDivisionError);
                      finished_signal false] /\
     fs (snd (live_run W self (initial files))) = fs st /\
     progress_values (live_trace W self files) = []).
Proof.
  intros Hnil first.
  assert (Hloop : live_loop W self 0 0 [] (list_edits W) (initial files)
                  = match first with
                    | [] => (inr tt, initial files)
                    | p :: _ =>
                        if stop_before W 0
                        then (inr tt, set_is_running false (initial files))
                        else (inl ZeroDivisionError,
                              item_result W self p (initial files))
                    end).
  { subst first. destruct (list_edits W) as [|es edits]; [reflexivity|].
    cbn [head default from_option id live_loop]. cbv zeta.
    destruct (foldl apply_edit [] es) as [|p rest]; [reflexivity|].
    cbn [lookup list_lookup]. unfold mbind, M_bind, mret, M_ret, interface, get_state.
    destruct (stop_before W 0); [reflexivity|].
    unfold mret, M_ret. cbn [initial is_running negb].
    rewrite iteration_cases, PyFloatFacts.percent_zero_total. reflexivity. }
  unfold live_trace, live_run. rewrite Hnil. cbn [length].
  unfold try_except, mbind, M_bind, modify, emit, get_state.
  change (set_successful 0 (initial files)) with (initial files).
  rewrite Hloop. clear Hloop.
  split; [intros ->; reflexivity|].
  split; intros p rest -> Hs; rewrite Hs; [reflexivity|].
  cbv zeta. rewrite item_eq. cbn [fst snd].
  destruct (item_result_block W self p (initial files)) as (blk & Hb & Hsig).
  split; [reflexivity|]. unfold modify. cbn [fst snd signals add_signal fs].
  rewrite <- app_assoc. split; [reflexivity|]. split; [reflexivity|].
  rewrite Hsig, !progress_values_app, (item_block_progress _ _ Hb). reflexivity.
Qed.

(** X15 on an empty list that receives [/a/x.orf] in time. *)
Lemma empty_list_then_extended_witness :
  let th0 := ConversionThread_init [] "/out" 90 false in
  live_trace late_world th0 one_source
  = [log_message (msg_converting "x.orf"); log_message (msg_success "x.jpg");
     log_message (msg_critical ZeroDivisionError); finished_signal false] /\
  fs (snd (live_run late_world th0 (initial one_source))) !! "/out/x.jpg"%string
  = Some "jpg:X"%string.
Proof.
  intros th0.
  destruct (empty_list_then_extended late_world th0 one_source eq_refl)
    as (_ & _ & Hlate).
  destruct (Hlate "/a/x.orf"%string [] eq_refl eq_refl) as (_ & Htr & Hfs & _).
  split; [rewrite Htr; vm_compute; reflexivity|].
  rewrite Hfs. vm_compute. reflexivity.
Defined.
